(** * OpenAPI converter service of Mockoon: a shallow embedding

    Source: [src/app/services/openapi-converter.service.ts]
    (class [OpenAPIConverterService]).

    Conventions of the embedding.
    - A JavaScript string is a [string]: a sequence of code units, here the
      code units below 256.
    - A JavaScript number that holds an integer is a [Z]; the numbers that
      the service reads from its data (status codes, ports) are safe
      integers, of magnitude at most 2^53 - 1.  [parseInt] returns a
      number: the double nearest to the integer that the numeral denotes,
      which is that integer up to 2^53 and a rounded one beyond.  A numeral
      so long that its double is [Infinity] (309 digits or more) is outside
      the embedding.
    - [undefined] (or [null]) in a place where the source reads an optional
      field is [None].
    - An object that the source enumerates with [Object.keys] is an
      association list given in enumeration order; an object that is only
      read or written by key is a [gmap] of its own properties (every
      key is an ordinary property: the special key [__proto__] as a key of
      its own is outside the embedding).  Where the source reads a key
      that may not be an own property, the read falls through to
      [Object.prototype].
    - A thrown exception is the [Throw] case of [outcome]; the two public
      entry points run in the monad [M], which adds the toasts and the log
      lines (the injected [ToastsService] and [Logger]). *)

From Stdlib Require Import String Ascii ZArith List Lia Decimal DecimalString DecimalZ.
From stdpp Require Import gmap strings list fin_maps.

(** ** Strings *)

Module Str.

(** [String.prototype.startsWith]. *)
Fixpoint startsWith (p s : string) : bool :=
  match p, s with
  | EmptyString, _ => true
  | String a p', String b s' => Ascii.eqb a b && startsWith p' s'
  | String _ _, EmptyString => false
  end.

Fixpoint takeWhile (f : ascii -> bool) (s : string) : string :=
  match s with
  | EmptyString => EmptyString
  | String c r => if f c then String c (takeWhile f r) else EmptyString
  end.

Fixpoint dropWhile (f : ascii -> bool) (s : string) : string :=
  match s with
  | EmptyString => EmptyString
  | String c r => if f c then dropWhile f r else s
  end.

Fixpoint all (f : ascii -> bool) (s : string) : bool :=
  match s with
  | EmptyString => true
  | String c r => f c && all f r
  end.

Fixpoint map (f : ascii -> ascii) (s : string) : string :=
  match s with
  | EmptyString => EmptyString
  | String c r => String (f c) (map f r)
  end.

(** [String.prototype.split] with a one-character separator. *)
Fixpoint split (sep : ascii) (s : string) : list string :=
  match s with
  | EmptyString => [EmptyString]
  | String c r =>
      if Ascii.eqb c sep then EmptyString :: split sep r
      else match split sep r with
           | hd :: tl => String c hd :: tl
           | [] => [String c EmptyString]
           end
  end.

Definition between (lo hi : N) (c : ascii) : bool :=
  (lo <=? N_of_ascii c)%N && (N_of_ascii c <=? hi)%N.

Definition isDigit (c : ascii) : bool := between 48 57 c.
Definition isUpper (c : ascii) : bool := between 65 90 c.
Definition isLower (c : ascii) : bool := between 97 122 c.

(** The class [[a-zA-Z0-9_]], which is also [\w] (with or without the
    [i] flag, as long as the [u] flag is absent). *)
Definition isWord (c : ascii) : bool :=
  isLower c || isUpper c || isDigit c || Ascii.eqb c "_".

(** [StrWhiteSpaceChar] among the code units below 256: TAB, LF, VT, FF,
    CR, SP and NBSP. *)
Definition isWhiteSpace (c : ascii) : bool :=
  between 9 13 c || Ascii.eqb c " " || (N_of_ascii c =? 160)%N.

(** [String.prototype.toLowerCase] on one code unit below 256: the
    letters A-Z, and the Latin-1 capitals 192-222 except the
    multiplication sign 215. *)
Definition lowerChar (c : ascii) : ascii :=
  if isUpper c
     || (between 192 222 c && negb (N_of_ascii c =? 215)%N)
  then ascii_of_N (N_of_ascii c + 32) else c.

Definition toLowerCase (s : string) : string := map lowerChar s.

(** [Array.prototype.includes] on an array of strings. *)
Definition includes (x : string) (l : list string) : bool :=
  existsb (String.eqb x) l.

(** [Number.prototype.toString] of an integer below 10^21 in magnitude:
    its decimal numeral. *)
Definition ofZ (n : Z) : string := NilZero.string_of_int (Z.to_int n).

End Str.

(** ** [parseInt(s, 10)]

    ECMAScript: skip leading white space, read an optional sign, take the
    longest prefix of decimal digits; no digit gives NaN ([None]).  With
    radix 10 no [0x] prefix is recognised.  The digits denote an integer
    ([mathInt]); the result is the number for it, that is the nearest
    double ([toDouble]). *)

(** [Number.MAX_SAFE_INTEGER], which is 2^53 - 1. *)
Definition MAX_SAFE_INTEGER : Z := 9007199254740991%Z.

(** [Number.isSafeInteger] on an integer. *)
Definition isSafeInteger (n : Z) : bool := (Z.abs n <=? MAX_SAFE_INTEGER)%Z.

(** The double nearest to an integer, as an integer: 53 significant bits
    are kept, the rest is rounded to nearest, ties to the even
    significand.  A safe integer is its own double. *)
Definition toDouble (n : Z) : Z :=
  if isSafeInteger n then n
  else
    let m := Z.abs n in
    let e := (Z.log2 m - 52)%Z in
    let q := Z.shiftr m e in
    let r := Z.land m (Z.ones e) in
    let half := Z.shiftl 1 (e - 1) in
    let q' :=
      if (half <? r)%Z || ((r =? half)%Z && Z.odd q) then (q + 1)%Z else q in
    (Z.sgn n * Z.shiftl q' e)%Z.

(** The integer denoted by the numeral at the head of [s], if any. *)
Definition mathInt (s : string) : option Z :=
  let s1 := Str.dropWhile Str.isWhiteSpace s in
  let '(negative, s2) :=
    match s1 with
    | String "-" r => (true, r)
    | String "+" r => (false, r)
    | _ => (false, s1)
    end in
  match Str.takeWhile Str.isDigit s2 with
  | EmptyString => None
  | digits =>
      match NilEmpty.uint_of_string digits with
      | Some d => Some (if negative then - Z.of_uint d else Z.of_uint d)%Z
      | None => None
      end
  end.

Definition parseInt (s : string) : option Z :=
  match mathInt s with
  | Some n => Some (toDouble n)
  | None => None
  end.

(** ** Global regular-expression search

    The three regular expressions of the service carry the [g] flag and
    never match the empty string.  [scan] walks the subject from left to
    right: where the pattern matches at the current position the match is
    recorded with its first capture group and the search resumes behind it,
    otherwise the character is passed over.  [match_at] says whether the
    pattern matches at the head of its argument, and with which text and
    which group. *)

Inductive segment : Type :=
| Unmatched (c : ascii)
| Matched (text group1 : string).

Section GlobalRegExp.

Variable match_at : string -> option (string * string).

Fixpoint scan (skip : nat) (s : string) : list segment :=
  match s with
  | EmptyString => []
  | String c r =>
      match skip with
      | S k => scan k r
      | O =>
          match match_at s with
          | Some (text, group1) =>
              Matched text group1 :: scan (Nat.pred (String.length text)) r
          | None => Unmatched c :: scan 0 r
          end
      end
  end.

Definition matched_texts (l : list segment) : list string :=
  flat_map (fun seg => match seg with
                       | Unmatched _ => []
                       | Matched text _ => [text]
                       end) l.

(** [str.match(re)]: the array of all matched texts, [null] when there is
    none. *)
Definition js_match (s : string) : option (list string) :=
  match matched_texts (scan 0 s) with
  | [] => None
  | ms => Some ms
  end.

End GlobalRegExp.

(** [/:[a-zA-Z0-9_]+/g] and [/:([a-zA-Z0-9_]+)/g] at the head of [s]. *)
Definition colon_param_at (s : string) : option (string * string) :=
  match s with
  | String ":" r =>
      match Str.takeWhile Str.isWord r with
      | EmptyString => None
      | name => Some (String ":" name, name)
      end
  | _ => None
  end.

(** [/{(\w+)}/gi] at the head of [s].  The greedy [\w+] takes the whole run
    of word characters: a shorter run is followed by a word character, never
    by the closing brace. *)
Definition brace_param_at (s : string) : option (string * string) :=
  match s with
  | String "{" r =>
      match Str.takeWhile Str.isWord r, Str.dropWhile Str.isWord r with
      | String c name, String "}" _ =>
          Some (String "{" (String c name +:+ "}"), String c name)
      | _, _ => None
      end
  | _ => None
  end.


Section Replace.

Variable match_at : string -> option (string * string).

(** [str.replace(re, pattern)] where [replacement] renders the pattern
    for a match and its first group. *)
Definition js_replace (replacement : string -> string -> string)
    (s : string) : string :=
  fold_right (fun seg rest =>
                match seg with
                | Unmatched c => String c rest
                | Matched text group1 => replacement text group1 +:+ rest
                end) "" (scan match_at 0 s).

End Replace.

(** ** Exceptions and effects *)

(** A thrown value: an [Error] object with its [message]. *)
Record JsError : Type := { error_name : string; message : string }.

Definition TypeError (msg : string) : JsError :=
  {| error_name := "TypeError"; message := msg |}.

Inductive outcome (A : Type) : Type :=
| Return (a : A)
| Throw (e : JsError).
Arguments Return {A} a.
Arguments Throw {A} e.

Definition obind {A B} (x : outcome A) (k : A -> outcome B) : outcome B :=
  match x with
  | Return a => k a
  | Throw e => Throw e
  end.

Declare Scope outcome_scope.
Delimit Scope outcome_scope with outcome.
Notation "'do' x <- e ;; k" := (obind e (fun x => k))
  (at level 10, x name, e at level 99, k at level 200) : outcome_scope.
Local Open Scope outcome_scope.

(** [Array.prototype.forEach] with a callback that updates an accumulator
    captured from the enclosing function; a throw inside the callback ends
    the loop. *)
Fixpoint forEach {A S : Type} (l : list A) (f : A -> S -> outcome S) (s : S)
    : outcome S :=
  match l with
  | [] => Return s
  | a :: l' => do s' <- f a s ;; forEach l' f s'
  end.

(** [str.replace(re, callback)]: the callback runs once per match, from
    left to right, and may throw. *)
Fixpoint replace_segments (callback : string -> string -> outcome string)
    (l : list segment) : outcome string :=
  match l with
  | [] => Return ""
  | Unmatched c :: l' =>
      do rest <- replace_segments callback l' ;; Return (String c rest)
  | Matched text group1 :: l' =>
      do r <- callback text group1 ;;
      do rest <- replace_segments callback l' ;;
      Return (r +:+ rest)
  end.

Definition js_replace_fn (match_at : string -> option (string * string))
    (callback : string -> string -> outcome string) (s : string)
    : outcome string :=
  replace_segments callback (scan match_at 0 s).

(** The toasts shown and the lines logged so far. *)
Inductive ToastType : Type := toast_warning | toast_error.
Inductive LogLevel : Type := log_info | log_error.

Record World : Type := {
  toasts : list (ToastType * string);
  logs : list (LogLevel * string)
}.

Definition M (A : Type) : Type := World -> outcome A * World.

Definition mret {A} (a : A) : M A := fun w => (Return a, w).

Definition mbind {A B} (x : M A) (k : A -> M B) : M B :=
  fun w => match x w with
           | (Return a, w') => k a w'
           | (Throw e, w') => (Throw e, w')
           end.

Definition lift {A} (x : outcome A) : M A := fun w => (x, w).

(** [try { body } catch (error) { handler }]. *)
Definition try_catch {A} (body : M A) (handler : JsError -> M A) : M A :=
  fun w => match body w with
           | (Return a, w') => (Return a, w')
           | (Throw e, w') => handler e w'
           end.

Declare Scope M_scope.
Delimit Scope M_scope with M.
Notation "'run' x <- e ;; k" := (mbind e (fun x => k))
  (at level 10, x name, e at level 99, k at level 200) : M_scope.
Notation "'exec' e ;; k" := (mbind e (fun _ => k))
  (at level 10, e at level 99, k at level 200) : M_scope.

(** [this.toastsService.addToast(type, message)]. *)
Definition addToast (type : ToastType) (msg : string) : M unit :=
  fun w => (Return tt, {| toasts := toasts w ++ [(type, msg)]; logs := logs w |}).

(** [this.logger.info(message)] and [this.logger.error(message)]. *)
Definition logger (level : LogLevel) (msg : string) : M unit :=
  fun w => (Return tt, {| toasts := toasts w; logs := logs w ++ [(level, msg)] |}).

(** ** Data model *)

(** The internal model ([src/app/types]): the fields the converter reads
    or writes. *)
Record Header : Type := { key : string; value : string }.

Record RouteResponse : Type := {
  statusCode : Z;
  label : string;
  body : string;
  rr_headers : list Header
}.

Record Route : Type := {
  method : string;
  endpoint : string;
  documentation : string;
  responses : list RouteResponse
}.

(** [endpointPrefix] is declared a string; the OpenAPI 3 import can store
    [undefined] in it, hence the option. *)
Record Environment : Type := {
  uuid : string;
  name : string;
  port : Z;
  endpointPrefix : option string;
  https : bool;
  env_headers : list Header;
  routes : list Route
}.

Record StatusCode : Type := { code : Z; text : string }.

(** The dereferenced document ([openapi-types], V2 and V3 at once: the
    types are erased at run time).  Of the [content] and [headers] maps of
    a response only the keys are read, in enumeration order. *)
Record ResponseObject : Type := {
  resp_description : option string;
  resp_content : option (list string);
  resp_headers : option (list string)
}.

Record OperationObject : Type := {
  op_summary : option string;
  op_description : option string;
  op_produces : option (list string);
  op_responses : option (list (string * ResponseObject))
}.

Record ServerVariableObject : Type := { sv_default : string }.

Record ServerObject : Type := {
  server_url : string;
  server_variables : option (gmap string ServerVariableObject)
}.

Record ParsedAPI : Type := {
  swagger : option string;
  openapi : option string;
  host : option string;
  basePath : option string;
  info_title : option string;
  servers : option (list ServerObject);
  paths : list (string * list (string * OperationObject))
}.

(** The exported OpenAPI 3 document, as far as the converter builds it.
    [eo_parameters] is [None] while the operation has no [parameters]
    property. *)
Record HeaderObject : Type := { schema_type : string; example : string }.

Record ExportedResponse : Type := {
  er_description : string;
  er_content : gmap string unit;
  er_headers : gmap string HeaderObject
}.

Record ParameterObject : Type := {
  param_name : string;
  param_in : string;
  param_schema_type : string;
  param_required : bool
}.

Record ExportedOperation : Type := {
  eo_description : string;
  eo_responses : gmap string ExportedResponse;
  eo_parameters : option (list ParameterObject)
}.

Record Document : Type := {
  doc_openapi : string;
  doc_title : string;
  doc_version : string;
  doc_servers : list string;
  doc_paths : gmap string (gmap string ExportedOperation)
}.

Inductive ParametersTypes : Type := PATH_PARAMETERS | SERVER_VARIABLES.
Inductive SpecificationVersions : Type := SWAGGER | OPENAPI_V3.

(** ** Collaborators *)

(** The injected [SchemasBuilderService]: the factory of default-valued
    entities, as called by the converter ([buildEnvironment(false, false)],
    [buildRoute(false)], [buildRouteResponse()]). *)
Class SchemasBuilderService : Type := {
  buildEnvironment : Environment;
  buildRoute : Route;
  buildRouteResponse : RouteResponse
}.

(** What the service imports from outside this file: the table of
    supported status codes ([src/app/types/route.type]), the messages of
    [src/app/enums/errors.enum], the content-type helper of
    [src/app/libs/utils.lib] (which may throw like any call), Node's
    [url.parse] (of which only [path] is read; it can be [null]), the
    dereferencer and the validator of SwaggerParser, and [JSON.stringify].
    The promise of the validator is not awaited: [validate] is the call
    itself, which returns or throws.  The codes of the table are status
    codes, hence safe integers. *)
Class Externals : Type := {
  statusCodes : list StatusCode;
  statusCodes_safe : forallb (fun sc => isSafeInteger (code sc)) statusCodes = true;
  IMPORT_WRONG_VERSION : string;
  IMPORT_ERROR : string;
  EXPORT_ERROR : string;
  GetRouteResponseContentType : Environment -> RouteResponse -> outcome string;
  urlParse_path : string -> option string;
  dereference : string -> outcome ParsedAPI;
  validate : Document -> outcome unit;
  JSON_stringify : Document -> string
}.

(** Modelled from the spec: the [methods] table of
    [src/app/types/route.type] is missing; the spec lists the recognised
    methods as get, post, put, patch, delete, head, options. *)
Definition methods : list string :=
  ["get"; "post"; "put"; "patch"; "delete"; "head"; "options"].

(** Modelled from the spec: [buildHeader] of the schemas builder is
    missing; a Header is a key and a value, and the factory is called with
    both. *)
Definition buildHeader (k v : string) : Header := {| key := k; value := v |}.

(** Modelled from the spec: [RemoveLeadingSlash] of [src/app/libs/utils.lib]
    is missing; the spec says the string minus its leading slash. *)
Definition RemoveLeadingSlash (str : string) : string :=
  match str with
  | String "/" r => r
  | _ => str
  end.

(** [a || b] on an optional string: [undefined] and the empty string are
    falsy. *)
Definition or_else (a : option string) (b : string) : string :=
  match a with
  | Some ((String _ _) as s) => s
  | _ => b
  end.

(** ** Import *)

(** The properties of [Object.prototype] whose names are words of the
    class [\w]: an object written as a literal or read from JSON or YAML
    inherits them, so a read of such a key finds a value (a function, or
    the prototype itself) also when the object has no such key of its
    own. *)
Definition objectPrototypeKeys : list string :=
  [ "constructor"; "hasOwnProperty"; "isPrototypeOf"; "propertyIsEnumerable";
    "toLocaleString"; "toString"; "valueOf";
    "__defineGetter__"; "__defineSetter__"; "__lookupGetter__";
    "__lookupSetter__"; "__proto__" ].

Definition inherited (name : string) : bool :=
  existsb (String.eqb name) objectPrototypeKeys.

(** [parametersReplace(str, parametersType, parameters)].  For a server
    variable the callback reads [parameters[replaceValue].default]: on
    [undefined] parameters the read of the key throws; a key that the
    object does not own but inherits yields a value without [default], so
    the callback returns [undefined] and [replace] writes the word
    undefined; a key that is neither owned nor inherited yields
    [undefined], whose [default] cannot be read. *)
Definition parametersReplace (str : string) (parametersType : ParametersTypes)
    (parameters : option (gmap string ServerVariableObject)) : outcome string :=
  js_replace_fn brace_param_at
    (fun searchValue replaceValue =>
       match parametersType with
       | PATH_PARAMETERS => Return (":" +:+ replaceValue)
       | SERVER_VARIABLES =>
           match parameters with
           | None =>
               Throw (TypeError ("Cannot read property '" +:+ replaceValue
                                   +:+ "' of undefined"))
           | Some vars =>
               match vars !! replaceValue with
               | Some variable => Return (sv_default variable)
               | None =>
                   if inherited replaceValue then Return "undefined"
                   else Throw (TypeError
                                 "Cannot read property 'default' of undefined")
               end
           end
       end) str.

(** [buildResponseHeaders(contentTypes, responseHeaders)]. *)
Definition buildResponseHeaders (contentTypes : option (list string))
    (responseHeaders : option (list string)) : list Header :=
  let routeContentTypeHeader := buildHeader "Content-Type" "application/json" in
  let routeContentTypeHeader :=
    match contentTypes with
    | Some ((first :: _) as types) =>
        if negb (Str.includes "application/json" types)
        then {| key := key routeContentTypeHeader; value := first |}
        else routeContentTypeHeader
    | _ => routeContentTypeHeader
    end in
  match responseHeaders with
  | Some names =>
      routeContentTypeHeader :: List.map (fun header => buildHeader header "") names
  | None => [routeContentTypeHeader]
  end.

Section ImportService.

Context `{SchemasBuilderService} `{Externals}.

(** The body of the loop over the declared responses of one operation:
    [routeResponses] with the response pushed when the key passes the
    status-code filter.  [parseInt] gives NaN ([None]) or a number; NaN is
    strictly equal to no code. *)
Definition pushRouteResponse (version : SpecificationVersions)
    (parsedRoute : OperationObject)
    (entry : string * ResponseObject)
    (routeResponses : list RouteResponse) : list RouteResponse :=
  let '(responseStatus, routeResponse) := entry in
  match parseInt responseStatus with
  | None => routeResponses
  | Some n =>
      match List.find (fun sc => (code sc =? n)%Z) statusCodes with
      | None => routeResponses
      | Some _ =>
          let contentTypeHeaders :=
            match version with
            | SWAGGER => op_produces parsedRoute
            | OPENAPI_V3 =>
                match resp_content routeResponse with
                | Some keys => Some keys
                | None => Some []
                end
            end in
          routeResponses ++
            [ {| statusCode := n;
                 label := or_else (resp_description routeResponse) "";
                 body := "";
                 rr_headers :=
                   buildResponseHeaders contentTypeHeaders
                     (resp_headers routeResponse) |} ]
      end
  end.

(** The body of the loop over the keys of one path item, for a key of
    the whitelist: the new route.  [Object.keys] of a missing [responses]
    raises a TypeError.  The four fields of the model are each written over
    the spread of [buildRoute(false)]. *)
Definition createRoute (version : SpecificationVersions)
    (routePath routeMethod : string) (parsedRoute : OperationObject)
    : outcome Route :=
  do declared <-
    match op_responses parsedRoute with
    | Some declared => Return declared
    | None => Throw (TypeError "Cannot convert undefined or null to object")
    end ;;
  let routeResponses :=
    fold_left (fun acc entry => pushRouteResponse version parsedRoute entry acc)
      declared [] in
  let routeResponses :=
    match routeResponses with
    | [] =>
        routeResponses ++
          [ {| statusCode := statusCode buildRouteResponse;
               label := label buildRouteResponse;
               body := body buildRouteResponse;
               rr_headers := [buildHeader "Content-Type" "application/json"] |} ]
    | _ :: _ => routeResponses
    end in
  do replaced <- parametersReplace routePath PATH_PARAMETERS None ;;
  Return {| documentation :=
              or_else (op_summary parsedRoute)
                (or_else (op_description parsedRoute) "");
            method := routeMethod;
            endpoint := RemoveLeadingSlash replaced;
            responses := routeResponses |}.

(** [createRoutes(parsedAPI, version)]. *)
Definition createRoutes (parsedAPI : ParsedAPI) (version : SpecificationVersions)
    : outcome (list Route) :=
  forEach (paths parsedAPI)
    (fun '(routePath, pathItem) routes =>
       forEach pathItem
         (fun '(routeMethod, parsedRoute) routes =>
            if Str.includes routeMethod methods
            then do newRoute <- createRoute version routePath routeMethod parsedRoute ;;
                 Return (routes ++ [newRoute])
            else Return routes)
         routes)
    [].

(** [convertFromSwagger(parsedAPI)]. *)
Definition convertFromSwagger (parsedAPI : ParsedAPI) : outcome Environment :=
  let newEnvironment := buildEnvironment in
  let newPort :=
    match host parsedAPI with
    | Some ((String _ _) as h) =>
        let segment :=
          match nth_error (Str.split ":" h) 1 with
          | Some seg => seg
          | None => "undefined"
          end in
        match parseInt segment with
        | Some n => if (n =? 0)%Z then port newEnvironment else n
        | None => port newEnvironment
        end
    | _ => port newEnvironment
    end in
  let newPrefix :=
    match basePath parsedAPI with
    | Some ((String _ _) as bp) => Some (RemoveLeadingSlash bp)
    | _ => endpointPrefix newEnvironment
    end in
  do newRoutes <- createRoutes parsedAPI SWAGGER ;;
  Return {| uuid := uuid newEnvironment;
            name := or_else (info_title parsedAPI) "Swagger import";
            port := newPort;
            endpointPrefix := newPrefix;
            https := https newEnvironment;
            env_headers := env_headers newEnvironment;
            routes := newRoutes |}.

(** [convertFromOpenAPIV3(parsedAPI)].  The chain
    [server && server[0] && server[0].url && ...] yields its first falsy
    operand: [undefined] without a first server, the empty string for an
    empty URL. *)
Definition convertFromOpenAPIV3 (parsedAPI : ParsedAPI) : outcome Environment :=
  let newEnvironment := buildEnvironment in
  do newPrefix <-
    match servers parsedAPI with
    | None => Return None
    | Some [] => Return None
    | Some (server0 :: _) =>
        match server_url server0 with
        | EmptyString => Return (Some "")
        | url =>
            do replaced <-
              parametersReplace url SERVER_VARIABLES (server_variables server0) ;;
            match urlParse_path replaced with
            | Some p => Return (Some (RemoveLeadingSlash p))
            | None => Throw (TypeError "Cannot read property 'replace' of null")
            end
        end
    end ;;
  do newRoutes <- createRoutes parsedAPI OPENAPI_V3 ;;
  Return {| uuid := uuid newEnvironment;
            name := or_else (info_title parsedAPI) "OpenAPI import";
            port := port newEnvironment;
            endpointPrefix := newPrefix;
            https := https newEnvironment;
            env_headers := env_headers newEnvironment;
            routes := newRoutes |}.

Definition isSwagger (parsedAPI : ParsedAPI) : bool :=
  match swagger parsedAPI with Some _ => true | None => false end.

Definition isOpenAPIV3 (parsedAPI : ParsedAPI) : bool :=
  match openapi parsedAPI with
  | Some v => Str.startsWith "3." v
  | None => false
  end.

Local Open Scope M_scope.

(** [import(filePath)]: the value the returned promise resolves to
    ([None] is [undefined]), or the exception it rejects with. *)
Definition import (filePath : string) : M (option Environment) :=
  exec logger log_info ("Starting OpenAPI file '" +:+ filePath +:+ "' import") ;;
  try_catch
    (run parsedAPI <- lift (dereference filePath) ;;
     if isSwagger parsedAPI then
       run environment <- lift (convertFromSwagger parsedAPI) ;;
       mret (Some environment)
     else if isOpenAPIV3 parsedAPI then
       run environment <- lift (convertFromOpenAPIV3 parsedAPI) ;;
       mret (Some environment)
     else
       exec addToast toast_warning IMPORT_WRONG_VERSION ;;
       mret None)
    (fun error =>
       exec addToast toast_error (IMPORT_ERROR +:+ ": " +:+ message error) ;;
       exec logger log_error
         ("Error while importing OpenAPI file: " +:+ message error) ;;
       mret None).

End ImportService.

(** ** Export *)

(** The path key of a route in the exported document: the first lines of
    the callback that folds the routes into [paths]. *)
Definition exportEndpoint (route_endpoint : string) : string :=
  let pathParamaters := js_match colon_param_at route_endpoint in
  match pathParamaters with
  | Some (_ :: _) =>
      "/" +:+ js_replace colon_param_at
                (fun _ group1 => "{" +:+ group1 +:+ "}") route_endpoint
  | _ => "/" +:+ route_endpoint
  end.

(** [parameter.slice(1, parameter.length)]. *)
Definition slice1 (s : string) : string :=
  match s with
  | String _ r => r
  | EmptyString => EmptyString
  end.

(** The [parameters] property of the exported operation: the last lines of
    the same callback. *)
Definition exportParameters (route_endpoint : string)
    : option (list ParameterObject) :=
  let pathParamaters := js_match colon_param_at route_endpoint in
  match pathParamaters with
  | Some ((_ :: _) as found) =>
      Some (fold_left
              (fun parameters parameter =>
                 parameters ++
                   [ {| param_name := slice1 parameter;
                        param_in := "path";
                        param_schema_type := "string";
                        param_required := true |} ])
              found [])
  | _ => None
  end.

(** The [headers] object of an exported response. *)
Definition exportHeaders (environment : Environment)
    (routeResponse : RouteResponse) : gmap string HeaderObject :=
  fold_left
    (fun headers header =>
       if negb (String.eqb (Str.toLowerCase (key header)) "content-type")
       then <[key header := {| schema_type := "string";
                               example := value header |}]> headers
       else headers)
    (env_headers environment ++ rr_headers routeResponse) ∅.

Section ExportService.

Context `{Externals}.

(** The [responses] object of an exported operation. *)
Definition exportResponses (environment : Environment) (route : Route)
    : outcome (gmap string ExportedResponse) :=
  forEach (responses route)
    (fun routeResponse responses =>
       do responseContentType <-
         GetRouteResponseContentType environment routeResponse ;;
       Return (<[Str.ofZ (statusCode routeResponse) :=
                   {| er_description := label routeResponse;
                      er_content :=
                        match responseContentType with
                        | EmptyString => ∅
                        | _ => {[ responseContentType := tt ]}
                        end;
                      er_headers := exportHeaders environment routeResponse |}]>
                 responses))
    ∅.

(** The callback that folds one route into [paths]. *)
Definition exportRoute (environment : Environment) (route : Route)
    (paths : gmap string (gmap string ExportedOperation))
    : outcome (gmap string (gmap string ExportedOperation)) :=
  let exported := exportEndpoint (endpoint route) in
  let pathItem := default ∅ (paths !! exported) in
  do responses <- exportResponses environment route ;;
  let operation :=
    {| eo_description := documentation route;
       eo_responses := responses;
       eo_parameters := exportParameters (endpoint route) |} in
  Return (<[exported := <[method route := operation]> pathItem]> paths).

Local Open Scope M_scope.

(** [convertToOpenAPIV3(environment)]. *)
Definition convertToOpenAPIV3 (environment : Environment) : M string :=
  run paths <- lift (forEach (routes environment) (exportRoute environment) ∅) ;;
  let openAPIEnvironment :=
    {| doc_openapi := "3.0.0";
       doc_title := name environment;
       doc_version := "1.0.0";
       doc_servers :=
         [ (if https environment then "https" else "http")
             +:+ "://localhost:" +:+ Str.ofZ (port environment) +:+ "/"
             +:+ match endpointPrefix environment with
                 | Some prefix => prefix
                 | None => "undefined"
                 end ];
       doc_paths := paths |} in
  exec try_catch (lift (validate openAPIEnvironment))
         (fun error =>
            logger log_error
              ("Error while validating OpenAPI export object: "
                 +:+ message error)) ;;
  mret (JSON_stringify openAPIEnvironment).

(** [export(environment)]: the string returned, [None] for [undefined]. *)
Definition export (environment : Environment) : M (option string) :=
  exec logger log_info
         ("Starting environment " +:+ uuid environment
            +:+ " export to OpenAPI file") ;;
  try_catch
    (run document <- convertToOpenAPIV3 environment ;;
     mret (Some document))
    (fun error =>
       exec addToast toast_error (EXPORT_ERROR +:+ ": " +:+ message error) ;;
       exec logger log_error
         ("Error while exporting OpenAPI file: " +:+ message error) ;;
       mret None).

End ExportService.

(** ** Auxiliary definitions for the statements *)

(** What follows a maximal run: nothing, or a character outside the class. *)
Definition stops (f : ascii -> bool) (s : string) : Prop :=
  match s with
  | EmptyString => True
  | String c _ => f c = false
  end.

(** A pattern is well formed when a match is a non-empty prefix of the
    subject. *)
Definition well_formed (match_at : string -> option (string * string)) : Prop :=
  forall s text group1,
    match_at s = Some (text, group1) ->
    exists c m r, text = String c m /\ s = String c (m +:+ r).

(** The export direction: every [:name] becomes [{name}]. *)
Definition colonToBrace : string -> string :=
  js_replace colon_param_at (fun _ group1 => "{" +:+ group1 +:+ "}").

(** The import direction: every [{name}] becomes [:name]. *)
Definition braceToColon : string -> string :=
  js_replace brace_param_at (fun _ group1 => ":" +:+ group1).

(** No [{name}] placeholder occurs in [s]. *)
Fixpoint no_brace_param (s : string) : bool :=
  match s with
  | EmptyString => true
  | String _ r =>
      match brace_param_at s with
      | Some _ => false
      | None => no_brace_param r
      end
  end.

(** The path parameter declared for [name] in an exported operation. *)
Definition pathParameter (name : string) : ParameterObject :=
  {| param_name := name;
     param_in := "path";
     param_schema_type := "string";
     param_required := true |}.

(** Whether a header is the content type, as the export tests it. *)
Definition isContentType (header : Header) : bool :=
  String.eqb (Str.toLowerCase (key header)) "content-type".


(** The operations of a document that sit under a whitelisted method key,
    in enumeration order, each with its path and its key. *)
Definition whitelisted (parsedAPI : ParsedAPI)
    : list (string * string * OperationObject) :=
  flat_map (fun '(routePath, pathItem) =>
              flat_map (fun '(routeMethod, parsedRoute) =>
                          if Str.includes routeMethod methods
                          then [(routePath, routeMethod, parsedRoute)]
                          else [])
                pathItem)
    (paths parsedAPI).

(** [Array.prototype.map] with a callback that may throw. *)
Fixpoint mapM {A B : Type} (f : A -> outcome B) (l : list A) : outcome (list B) :=
  match l with
  | [] => Return []
  | a :: l' => do b <- f a ;; do bs <- mapM f l' ;; Return (b :: bs)
  end.

Section ImportStatements.

Context `{SchemasBuilderService} `{Externals}.

(** The content types declared for a response, by version. *)
Definition contentTypesOf (version : SpecificationVersions)
    (parsedRoute : OperationObject) (routeResponse : ResponseObject)
    : option (list string) :=
  match version with
  | SWAGGER => op_produces parsedRoute
  | OPENAPI_V3 =>
      match resp_content routeResponse with
      | Some keys => Some keys
      | None => Some []
      end
  end.

(** The response built for a declared response that passes the filter
    with status [n]. *)
Definition importedResponse (version : SpecificationVersions)
    (parsedRoute : OperationObject) (n : Z) (routeResponse : ResponseObject)
    : RouteResponse :=
  {| statusCode := n;
     label := or_else (resp_description routeResponse) "";
     body := "";
     rr_headers :=
       buildResponseHeaders (contentTypesOf version parsedRoute routeResponse)
         (resp_headers routeResponse) |}.

(** The response synthesized for an operation that keeps none. *)
Definition fallbackResponse : RouteResponse :=
  {| statusCode := statusCode buildRouteResponse;
     label := label buildRouteResponse;
     body := body buildRouteResponse;
     rr_headers := [ {| key := "Content-Type"; value := "application/json" |} ] |}.

(** The supported status codes, as numbers. *)
Definition supportedCodes : list Z := List.map code statusCodes.

(** A declared key passes the filter with status [n]. *)
Definition passes (responseStatus : string) (n : Z) : Prop :=
  parseInt responseStatus = Some n /\ In n supportedCodes.

(** The responses kept from the declared ones: one or none per key, in
    enumeration order. *)
Definition keptResponses (version : SpecificationVersions)
    (parsedRoute : OperationObject)
    (declared : list (string * ResponseObject)) : list RouteResponse :=
  flat_map (fun entry => pushRouteResponse version parsedRoute entry []) declared.

End ImportStatements.

(** The parameter names found in an endpoint, one per occurrence, in order
    of occurrence. *)
Definition parameterNames (route_endpoint : string) : list string :=
  List.map slice1 (matched_texts (scan colon_param_at 0 route_endpoint)).



(** The operation stored under a path key and a method key. *)
Definition operationAt (paths : gmap string (gmap string ExportedOperation))
    (pathKey methodKey : string) : option ExportedOperation :=
  match paths !! pathKey with
  | Some pathItem => pathItem !! methodKey
  | None => None
  end.

(** A route is written under this path key and this method key. *)
Definition writesAt (pathKey methodKey : string) (route : Route) : bool :=
  String.eqb (exportEndpoint (endpoint route)) pathKey
  && String.eqb (method route) methodKey.

(** A character other than the colon: a host name is a string of these. *)
Definition noColon (c : ascii) : bool := negb (Ascii.eqb c ":").

(** The document that [convertToOpenAPIV3] assembles around the paths. *)
Definition exportedDocument (environment : Environment)
    (paths : gmap string (gmap string ExportedOperation)) : Document :=
  {| doc_openapi := "3.0.0";
     doc_title := name environment;
     doc_version := "1.0.0";
     doc_servers :=
       [ (if https environment then "https" else "http")
           +:+ "://localhost:" +:+ Str.ofZ (port environment) +:+ "/"
           +:+ match endpointPrefix environment with
               | Some prefix => prefix
               | None => "undefined"
               end ];
     doc_paths := paths |}.

(** ** A concrete instance of the collaborators

    Used to run the service on concrete documents. *)
Module Demo.

Definition builder : SchemasBuilderService :=
  {| buildEnvironment :=
       {| uuid := "e1"; name := "New environment"; port := 3000;
          endpointPrefix := Some ""; https := false;
          env_headers := []; routes := [] |};
     buildRoute :=
       {| method := "get"; endpoint := ""; documentation := "";
          responses := [] |};
     buildRouteResponse :=
       {| statusCode := 200; label := ""; body := "{}"; rr_headers := [] |} |}.

Definition codes : list StatusCode :=
  [ {| code := 200; text := "OK" |};
    {| code := 201; text := "Created" |};
    {| code := 204; text := "No Content" |};
    {| code := 400; text := "Bad Request" |};
    {| code := 404; text := "Not Found" |};
    {| code := 500; text := "Internal Server Error" |} ].

Definition response (description : string) : ResponseObject :=
  {| resp_description := Some description;
     resp_content := None;
     resp_headers := None |}.

Definition operation (declared : list (string * ResponseObject))
    : OperationObject :=
  {| op_summary := None; op_description := None; op_produces := None;
     op_responses := Some declared |}.

Definition document (swagger openapi host : option string)
    (servers : option (list ServerObject))
    (paths : list (string * list (string * OperationObject))) : ParsedAPI :=
  {| swagger := swagger; openapi := openapi; host := host;
     basePath := None; info_title := Some "Pets";
     servers := servers; paths := paths |}.

Definition pets : list (string * list (string * OperationObject)) :=
  [ ("/pets/{id}", [ ("get", operation [ ("200", response "a pet") ]) ]) ].

(** The files the dereferencer knows. *)
Definition files (filePath : string) : outcome ParsedAPI :=
  if String.eqb filePath "swagger.json"
  then Return (document (Some "2.0") None (Some "api.example.com:8443") None pets)
  else if String.eqb filePath "openapi.json"
  then Return (document None (Some "3.0.1") None None pets)
  else if String.eqb filePath "raml.json"
  then Return (document None None None None pets)
  else if String.eqb filePath "broken.json"
  then Return (document None (Some "3.0.1") None None
                 [ ("/pets", [ ("get", {| op_summary := None;
                                          op_description := None;
                                          op_produces := None;
                                          op_responses := None |}) ]) ])
  else Throw {| error_name := "ResolverError";
                message := "Error opening file" |}.

(** The content type of a response: its own Content-Type header. *)
Definition contentType (environment : Environment)
    (routeResponse : RouteResponse) : outcome string :=
  match List.find isContentType (rr_headers routeResponse) with
  | Some header => Return (value header)
  | None => Return ""
  end.

(** A stand-in for Node's parser: the path starts at the first slash
    behind the authority. *)
Definition pathOf (url : string) : option string :=
  match Str.split "/" url with
  | _ :: _ :: _ :: segments =>
      Some (fold_right (fun seg rest => "/" +:+ seg +:+ rest) "" segments)
  | _ => None
  end.

(** A stand-in for the serializer: version and title. *)
Definition stringify (document : Document) : string :=
  doc_openapi document +:+ " " +:+ doc_title document.

Definition externals : Externals :=
  {| statusCodes := codes;
     statusCodes_safe := eq_refl;
     IMPORT_WRONG_VERSION := "OpenAPI version not supported";
     IMPORT_ERROR := "Error while importing the file";
     EXPORT_ERROR := "Error while exporting the environment";
     GetRouteResponseContentType := contentType;
     urlParse_path := pathOf;
     dereference := files;
     validate := fun _ => Return tt;
     JSON_stringify := stringify |}.

(** The same, with a content-type helper that throws. *)
Definition failing : Externals :=
  {| statusCodes := codes;
     statusCodes_safe := eq_refl;
     IMPORT_WRONG_VERSION := "OpenAPI version not supported";
     IMPORT_ERROR := "Error while importing the file";
     EXPORT_ERROR := "Error while exporting the environment";
     GetRouteResponseContentType :=
       fun _ _ => Throw (TypeError "Cannot read property 'find' of undefined");
     urlParse_path := pathOf;
     dereference := files;
     validate := fun _ => Return tt;
     JSON_stringify := stringify |}.

Definition environment (routes : list Route) : Environment :=
  {| uuid := "e1"; name := "Pets"; port := 3000; endpointPrefix := Some "v1";
     https := false;
     env_headers := [ {| key := "X-Powered-By"; value := "mock" |} ];
     routes := routes |}.

Definition route (endpoint : string) (responses : list RouteResponse) : Route :=
  {| method := "get"; endpoint := endpoint; documentation := "";
     responses := responses |}.

Definition world : World := {| toasts := []; logs := [] |}.

End Demo.


(** ** Further definitions for the statements *)

(** The first groups of the matches of a scan, in order. *)
Definition matched_groups (l : list segment) : list string :=
  flat_map (fun seg => match seg with
                       | Unmatched _ => []
                       | Matched _ group1 => [group1]
                       end) l.

(** The names inside the [{name}] placeholders of a string, in order. *)
Definition placeholders (s : string) : list string :=
  matched_groups (scan brace_param_at 0 s).

(** The declared default of a server variable; the empty string stands for
    a variable that is not declared. *)
Definition defaultOf (variables : gmap string ServerVariableObject)
    (name : string) : string :=
  match variables !! name with
  | Some variable => sv_default variable
  | None => ""
  end.

(** A server URL with every placeholder replaced by the default of its
    variable. *)
Definition substituteDefaults (variables : gmap string ServerVariableObject)
    (url : string) : string :=
  js_replace brace_param_at (fun _ name => defaultOf variables name) url.

(** No [:name] parameter occurs in [s]. *)
Fixpoint no_colon_param (s : string) : bool :=
  match s with
  | EmptyString => true
  | String _ r =>
      match colon_param_at s with
      | Some _ => false
      | None => no_colon_param r
      end
  end.

(** The operation that the export writes for a route whose responses are
    exported as [exported]. *)
Definition operationOf (route : Route) (exported : gmap string ExportedResponse)
    : ExportedOperation :=
  {| eo_description := documentation route;
     eo_responses := exported;
     eo_parameters := exportParameters (endpoint route) |}.

(** The response that the export writes for a route response with content
    type [contentType] (empty when there is none). *)
Definition responseOf (environment : Environment) (routeResponse : RouteResponse)
    (contentType : string) : ExportedResponse :=
  {| er_description := label routeResponse;
     er_content :=
       match contentType with
       | EmptyString => ∅
       | _ => {[ contentType := tt ]}
       end;
     er_headers := exportHeaders environment routeResponse |}.

(** Further instances and documents to run the service on. *)
Module Samples.

(** Collaborators whose validator rejects every document. *)
Definition strict : Externals :=
  {| statusCodes := Demo.codes;
     statusCodes_safe := eq_refl;
     IMPORT_WRONG_VERSION := "OpenAPI version not supported";
     IMPORT_ERROR := "Error while importing the file";
     EXPORT_ERROR := "Error while exporting the environment";
     GetRouteResponseContentType := Demo.contentType;
     urlParse_path := Demo.pathOf;
     dereference := Demo.files;
     validate :=
       fun _ => Throw {| error_name := "SyntaxError";
                         message := "Swagger schema validation failed" |};
     JSON_stringify := Demo.stringify |}.

Definition variables : gmap string ServerVariableObject :=
  <["version" := {| sv_default := "v2" |}]>
    (<["port" := {| sv_default := "8080" |}]> ∅).

Definition templated : ServerObject :=
  {| server_url := "http://localhost:{port}/api/{version}";
     server_variables := Some variables |}.

Definition undeclared : ServerObject :=
  {| server_url := "http://localhost:{port}/api/{stage}";
     server_variables := Some variables |}.

(** Collaborators whose dereferencer returns an OpenAPI 3 document with a
    server that refers to an undeclared variable. *)
Definition dangling : Externals :=
  {| statusCodes := Demo.codes;
     statusCodes_safe := eq_refl;
     IMPORT_WRONG_VERSION := "OpenAPI version not supported";
     IMPORT_ERROR := "Error while importing the file";
     EXPORT_ERROR := "Error while exporting the environment";
     GetRouteResponseContentType := Demo.contentType;
     urlParse_path := Demo.pathOf;
     dereference :=
       fun _ => Return (Demo.document None (Some "3.0.1") None
                          (Some [undeclared]) Demo.pets);
     validate := fun _ => Return tt;
     JSON_stringify := Demo.stringify |}.

(** A Swagger document whose response declares headers, and collaborators
    whose dereferencer returns it. *)
Definition limited : ResponseObject :=
  {| resp_description := Some "the pets";
     resp_content := None;
     resp_headers := Some ["X-Rate-Limit"; "Content-Type"] |}.

Definition listing : OperationObject :=
  {| op_summary := Some "List the pets"; op_description := None;
     op_produces := Some ["application/xml"];
     op_responses := Some [ ("200", limited) ] |}.

Definition headed : Externals :=
  {| statusCodes := Demo.codes;
     statusCodes_safe := eq_refl;
     IMPORT_WRONG_VERSION := "OpenAPI version not supported";
     IMPORT_ERROR := "Error while importing the file";
     EXPORT_ERROR := "Error while exporting the environment";
     GetRouteResponseContentType := Demo.contentType;
     urlParse_path := Demo.pathOf;
     dereference :=
       fun _ => Return (Demo.document (Some "2.0") None None None
                          [ ("/pets", [ ("get", listing) ]) ]);
     validate := fun _ => Return tt;
     JSON_stringify := Demo.stringify |}.

End Samples.

(** * Properties *)

(** ** Strings and scanning *)

#[local] Arguments String.append !_ _ : simpl nomatch.

Lemma append_nil_r (s : string) : s +:+ "" = s.
Proof. induction s as [|c s IH]; simpl; [reflexivity | f_equal; exact IH]. Qed.

Lemma append_assoc (a b c : string) : (a +:+ b) +:+ c = a +:+ (b +:+ c).
Proof. induction a as [|x a IH]; simpl; [reflexivity | f_equal; exact IH]. Qed.

Lemma length_append (a b : string) :
  String.length (a +:+ b) = String.length a + String.length b.
Proof. induction a as [|x a IH]; simpl; [reflexivity | f_equal; exact IH]. Qed.

Lemma take_drop_while (f : ascii -> bool) (s : string) :
  Str.takeWhile f s +:+ Str.dropWhile f s = s.
Proof.
  induction s as [|c s IH]; simpl; [reflexivity |].
  destruct (f c); simpl; [f_equal; exact IH | reflexivity].
Qed.

Lemma all_takeWhile (f : ascii -> bool) (s : string) :
  Str.all f (Str.takeWhile f s) = true.
Proof.
  induction s as [|c s IH]; simpl; [reflexivity |].
  destruct (f c) eqn:E; simpl; [now rewrite E | reflexivity].
Qed.

Lemma length_dropWhile (f : ascii -> bool) (s : string) :
  String.length (Str.dropWhile f s) <= String.length s.
Proof.
  induction s as [|c s IH]; simpl; [lia |].
  destruct (f c); simpl; lia.
Qed.

Lemma dropWhile_stops (f : ascii -> bool) (s : string) :
  stops f (Str.dropWhile f s).
Proof.
  induction s as [|c s IH]; simpl; [exact I |].
  destruct (f c) eqn:E; simpl; [exact IH | exact E].
Qed.

Lemma takeWhile_run (f : ascii -> bool) (w t : string) :
  Str.all f w = true -> stops f t -> Str.takeWhile f (w +:+ t) = w.
Proof.
  induction w as [|c w IH]; simpl; intros Hw Ht.
  - destruct t as [|d t]; simpl in *; [reflexivity | now rewrite Ht].
  - apply andb_prop in Hw as [Hc Hw]. rewrite Hc. f_equal. now apply IH.
Qed.

Lemma dropWhile_run (f : ascii -> bool) (w t : string) :
  Str.all f w = true -> stops f t -> Str.dropWhile f (w +:+ t) = t.
Proof.
  induction w as [|c w IH]; simpl; intros Hw Ht.
  - destruct t as [|d t]; simpl in *; [reflexivity | now rewrite Ht].
  - apply andb_prop in Hw as [Hc Hw]. rewrite Hc. now apply IH.
Qed.

Section ScanLemmas.

Variable match_at : string -> option (string * string).

Lemma scan_skip (p r : string) :
  scan match_at (String.length p) (p +:+ r) = scan match_at 0 r.
Proof. induction p as [|c p IH]; simpl; [reflexivity | exact IH]. Qed.

Lemma scan_unmatched (c : ascii) (r : string) :
  match_at (String c r) = None ->
  scan match_at 0 (String c r) = Unmatched c :: scan match_at 0 r.
Proof. intros E. simpl. now rewrite E. Qed.

Lemma scan_matched (c : ascii) (m r group1 : string) :
  match_at (String c (m +:+ r)) = Some (String c m, group1) ->
  scan match_at 0 (String c (m +:+ r))
  = Matched (String c m) group1 :: scan match_at 0 r.
Proof. intros E. cbn [scan]. rewrite E. cbn [String.length Nat.pred]. now rewrite scan_skip. Qed.

Lemma js_replace_unmatched f (c : ascii) (r : string) :
  match_at (String c r) = None ->
  js_replace match_at f (String c r) = String c (js_replace match_at f r).
Proof. intros E. unfold js_replace. now rewrite scan_unmatched. Qed.

Lemma js_replace_matched f (c : ascii) (m r group1 : string) :
  match_at (String c (m +:+ r)) = Some (String c m, group1) ->
  js_replace match_at f (String c (m +:+ r))
  = f (String c m) group1 +:+ js_replace match_at f r.
Proof. intros E. unfold js_replace. now rewrite (scan_matched _ _ _ _ E). Qed.

End ScanLemmas.

(** The segments of a scan are a partition of the subject: replacing every
    match by its own text gives the subject back. *)
Lemma scan_partition match_at (s : string) :
  well_formed match_at -> js_replace match_at (fun text _ => text) s = s.
Proof.
  intros Hwf. remember (String.length s) as n eqn:Hn. revert s Hn.
  induction n as [n IH] using lt_wf_ind. intros s Hn.
  destruct s as [|c r]; [reflexivity |].
  destruct (match_at (String c r)) as [[text group1]|] eqn:E.
  - destruct (Hwf _ _ _ E) as (c' & m & r' & -> & [= <- ->]).
    rewrite (js_replace_matched _ _ _ _ _ _ E). simpl. f_equal. f_equal.
    apply (IH (String.length r')); [| reflexivity].
    subst n. simpl. rewrite length_append. lia.
  - rewrite js_replace_unmatched by exact E. f_equal.
    apply (IH (String.length r)); [subst n; simpl; lia | reflexivity].
Qed.

Lemma colon_param_at_well_formed : well_formed colon_param_at.
Proof.
  intros s text group1 E. destruct s as [|c r]; [discriminate |].
  unfold colon_param_at in E.
  destruct (Ascii.eqb_spec c ":") as [-> | Hne].
  - destruct (Str.takeWhile Str.isWord r) as [|d name] eqn:T; [discriminate |].
    injection E as <- <-. exists ":"%char, (String d name), (Str.dropWhile Str.isWord r).
    split; [reflexivity |]. rewrite <- T. now rewrite take_drop_while.
  - destruct c as [[] [] [] [] [] [] [] []]; try discriminate. now elim Hne.
Qed.

Lemma brace_param_at_well_formed : well_formed brace_param_at.
Proof.
  intros s text group1 E. destruct s as [|c r]; [discriminate |].
  unfold brace_param_at in E.
  destruct (Ascii.eqb_spec c "{") as [-> | Hne].
  - destruct (Str.takeWhile Str.isWord r) as [|d name] eqn:T; [discriminate |].
    destruct (Str.dropWhile Str.isWord r) as [|e rest] eqn:D; [discriminate |].
    destruct (Ascii.eqb_spec e "}") as [-> | Hne].
    + injection E as <- <-.
      exists "{"%char, (String d name +:+ "}"), rest. split; [reflexivity |].
      rewrite append_assoc. change ("}" +:+ rest) with (String "}" rest).
      rewrite <- D, <- T. now rewrite take_drop_while.
    + destruct e as [[] [] [] [] [] [] [] []]; try discriminate. now elim Hne.
  - destruct c as [[] [] [] [] [] [] [] []]; try discriminate. now elim Hne.
Qed.

(** ** Path parameters in both directions *)
Lemma replace_segments_pure (f : string -> string -> string) (l : list segment) :
  replace_segments (fun text group1 => Return (f text group1)) l
  = Return (fold_right (fun seg rest =>
                          match seg with
                          | Unmatched c => String c rest
                          | Matched text group1 => f text group1 +:+ rest
                          end) "" l).
Proof.
  induction l as [|[c|text group1] l IH]; simpl; [reflexivity | |];
    rewrite IH; reflexivity.
Qed.

Lemma parametersReplace_path (str : string) :
  parametersReplace str PATH_PARAMETERS None = Return (braceToColon str).
Proof.
  unfold parametersReplace, js_replace_fn, braceToColon, js_replace.
  apply replace_segments_pure.
Qed.

Lemma isWord_colon : Str.isWord ":" = false. Proof. reflexivity. Qed.
Lemma isWord_open : Str.isWord "{" = false. Proof. reflexivity. Qed.
Lemma isWord_close : Str.isWord "}" = false. Proof. reflexivity. Qed.

Lemma colon_param_at_cases (s : string) :
  colon_param_at s = None \/
  exists c name r,
    s = String ":" (String c name +:+ r) /\
    Str.all Str.isWord (String c name) = true /\ stops Str.isWord r /\
    colon_param_at s = Some (String ":" (String c name), String c name).
Proof.
  destruct s as [|c r]; [now left |].
  destruct (Ascii.eqb_spec c ":") as [-> | Hc].
  - simpl. destruct (Str.takeWhile Str.isWord r) as [|d name] eqn:E; [now left |].
    right. exists d, name, (Str.dropWhile Str.isWord r).
    split; [| split; [| split]].
    + rewrite <- (take_drop_while Str.isWord r) at 1. now rewrite E.
    + pose proof (all_takeWhile Str.isWord r) as A. now rewrite E in A.
    + apply dropWhile_stops.
    + reflexivity.
  - left. simpl. destruct c as [[] [] [] [] [] [] [] []]; try reflexivity.
    now elim Hc.
Qed.

Lemma colon_param_at_word (c : ascii) (r : string) :
  Str.isWord c = true -> colon_param_at (String c r) = None.
Proof.
  intros Hc. destruct (Ascii.eqb_spec c ":") as [-> | Hne]; [discriminate |].
  simpl. destruct c as [[] [] [] [] [] [] [] []]; try reflexivity. now elim Hne.
Qed.

Lemma brace_param_at_other (c : ascii) (r : string) :
  c <> "{"%char -> brace_param_at (String c r) = None.
Proof.
  intros Hne. simpl.
  destruct c as [[] [] [] [] [] [] [] []]; try reflexivity. now elim Hne.
Qed.

Lemma brace_param_at_run (w t : string) :
  Str.all Str.isWord w = true -> stops Str.isWord t ->
  brace_param_at (String "{" (w +:+ t))
  = match w, t with
    | String c name, String "}" _ =>
        Some (String "{" (String c name +:+ "}"), String c name)
    | _, _ => None
    end.
Proof.
  intros Hw Ht. unfold brace_param_at.
  now rewrite takeWhile_run, dropWhile_run.
Qed.

Lemma colonToBrace_nil : colonToBrace "" = "".
Proof. reflexivity. Qed.

Lemma colonToBrace_skip (c : ascii) (r : string) :
  colon_param_at (String c r) = None ->
  colonToBrace (String c r) = String c (colonToBrace r).
Proof. apply js_replace_unmatched. Qed.

Lemma colonToBrace_param (name r : string) :
  colon_param_at (String ":" (name +:+ r)) = Some (String ":" name, name) ->
  colonToBrace (String ":" (name +:+ r))
  = String "{" (name +:+ String "}" (colonToBrace r)).
Proof.
  intros E. unfold colonToBrace. rewrite (js_replace_matched _ _ _ _ _ _ E).
  simpl. now rewrite append_assoc.
Qed.

Lemma colonToBrace_run (w t : string) :
  Str.all Str.isWord w = true ->
  colonToBrace (w +:+ t) = w +:+ colonToBrace t.
Proof.
  induction w as [|c w IH]; simpl; intros Hw; [reflexivity |].
  apply andb_prop in Hw as [Hc Hw].
  rewrite colonToBrace_skip by now apply colon_param_at_word.
  now rewrite IH.
Qed.

(** Behind a run of word characters the export direction leaves a closing
    brace exactly where the subject has one. *)
Lemma colonToBrace_stops (t : string) :
  stops Str.isWord t ->
  stops Str.isWord (colonToBrace t) /\
  ((exists u, colonToBrace t = String "}" u) -> exists u, t = String "}" u).
Proof.
  intros Ht. destruct (colon_param_at_cases t) as [E | (c & name & r & -> & Hn & Hr & E)].
  - destruct t as [|d t];
      [split; [exact I | intros [u Hu]; rewrite colonToBrace_nil in Hu; discriminate] |].
    rewrite colonToBrace_skip by exact E. split; [exact Ht |].
    intros [u Hu]. injection Hu as -> _. now exists t.
  - rewrite colonToBrace_param by exact E. split; [reflexivity |].
    intros [u Hu]. discriminate.
Qed.

Lemma brace_param_at_colonToBrace (r : string) :
  brace_param_at (String "{" r) = None ->
  brace_param_at (String "{" (colonToBrace r)) = None.
Proof.
  rewrite <- (take_drop_while Str.isWord r) at 1 2.
  set (w := Str.takeWhile Str.isWord r). set (t := Str.dropWhile Str.isWord r).
  assert (Hw : Str.all Str.isWord w = true) by apply all_takeWhile.
  assert (Ht : stops Str.isWord t) by apply dropWhile_stops.
  rewrite colonToBrace_run by exact Hw.
  destruct (colonToBrace_stops t Ht) as [Hs Hclose].
  rewrite !brace_param_at_run by assumption.
  destruct w as [|c name]; [reflexivity |].
  destruct (colonToBrace t) as [|d u] eqn:E; [reflexivity |].
  destruct (Ascii.eqb_spec d "}") as [-> | Hne].
  - destruct Hclose as [u' ->]; [now exists u |]. discriminate.
  - intros _. destruct d as [[] [] [] [] [] [] [] []]; try reflexivity. now elim Hne.
Qed.

Lemma no_brace_param_cons (c : ascii) (r : string) :
  no_brace_param (String c r)
  = match brace_param_at (String c r) with
    | Some _ => false
    | None => no_brace_param r
    end.
Proof. reflexivity. Qed.

Lemma no_brace_param_drop (p q : string) :
  no_brace_param (p +:+ q) = true -> no_brace_param q = true.
Proof.
  induction p as [|c p IH]; [easy |].
  change (String c p +:+ q) with (String c (p +:+ q)).
  rewrite no_brace_param_cons.
  destruct (brace_param_at (String c (p +:+ q))); [discriminate | exact IH].
Qed.

Lemma braceToColon_skip (c : ascii) (r : string) :
  brace_param_at (String c r) = None ->
  braceToColon (String c r) = String c (braceToColon r).
Proof. apply js_replace_unmatched. Qed.

Lemma braceToColon_param (c : ascii) (name r : string) :
  Str.all Str.isWord (String c name) = true ->
  braceToColon (String "{" (String c name +:+ String "}" r))
  = String ":" (String c name +:+ braceToColon r).
Proof.
  intros Hw.
  assert (Hsplit : String c name +:+ String "}" r = (String c name +:+ "}") +:+ r)
    by (rewrite append_assoc; reflexivity).
  assert (E : brace_param_at (String "{" ((String c name +:+ "}") +:+ r))
              = Some (String "{" (String c name +:+ "}"), String c name)).
  { rewrite <- Hsplit. now rewrite brace_param_at_run. }
  rewrite Hsplit. unfold braceToColon.
  rewrite (js_replace_matched _ _ _ _ _ _ E). reflexivity.
Qed.

(** The two directions are inverse on every string without a [{name}]
    placeholder. *)
Lemma braceToColon_colonToBrace (s : string) :
  no_brace_param s = true -> braceToColon (colonToBrace s) = s.
Proof.
  remember (String.length s) as n eqn:Hn. revert s Hn.
  induction n as [n IH] using lt_wf_ind. intros s Hn Hs.
  destruct s as [|c r]; [reflexivity |].
  destruct (colon_param_at_cases (String c r))
    as [E | (d & name & r' & Heq & Hw & Hr & E)].
  - rewrite colonToBrace_skip by exact E.
    rewrite no_brace_param_cons in Hs.
    destruct (brace_param_at (String c r)) eqn:Hb; [discriminate |].
    rewrite braceToColon_skip.
    + f_equal. apply (IH (String.length r)); [subst n; simpl; lia | reflexivity | exact Hs].
    + destruct (Ascii.eqb_spec c "{") as [-> | Hne].
      * now apply brace_param_at_colonToBrace.
      * now apply brace_param_at_other.
  - rewrite Heq in *. rewrite colonToBrace_param by exact E.
    rewrite braceToColon_param by exact Hw.
    do 2 f_equal.
    apply (IH (String.length r')).
    + subst n. simpl. rewrite length_append. lia.
    + reflexivity.
    + apply (no_brace_param_drop (String ":" (String d name))). exact Hs.
Qed.

Lemma brace_param_at_colonToBrace_inv (r : string) :
  brace_param_at (String "{" (colonToBrace r)) = None ->
  brace_param_at (String "{" r) = None.
Proof.
  rewrite <- (take_drop_while Str.isWord r) at 1 2.
  set (w := Str.takeWhile Str.isWord r). set (t := Str.dropWhile Str.isWord r).
  assert (Hw : Str.all Str.isWord w = true) by apply all_takeWhile.
  assert (Ht : stops Str.isWord t) by apply dropWhile_stops.
  rewrite colonToBrace_run by exact Hw.
  destruct (colonToBrace_stops t Ht) as [Hs _].
  rewrite !brace_param_at_run by assumption.
  destruct w as [|c name]; [reflexivity |].
  destruct t as [|d u]; [reflexivity |].
  destruct (Ascii.eqb_spec d "}") as [-> | Hne].
  - rewrite colonToBrace_skip by reflexivity. discriminate.
  - intros _. destruct d as [[] [] [] [] [] [] [] []]; try reflexivity. now elim Hne.
Qed.

Lemma no_brace_param_app (p q : string) :
  Str.all (fun c => negb (Ascii.eqb c "{")) p = true ->
  no_brace_param q = true -> no_brace_param (p +:+ q) = true.
Proof.
  induction p as [|c p IH]; [easy |]. intros Hp Hq.
  cbn [Str.all] in Hp. apply andb_prop in Hp as [Hc Hp].
  change (String c p +:+ q) with (String c (p +:+ q)).
  rewrite no_brace_param_cons, brace_param_at_other; [now apply IH |].
  intros ->. discriminate.
Qed.

Lemma word_no_open (s : string) :
  Str.all Str.isWord s = true ->
  Str.all (fun c => negb (Ascii.eqb c "{")) s = true.
Proof.
  induction s as [|c s IH]; [easy |]. cbn [Str.all]. intros H.
  apply andb_prop in H as [Hc Hs]. rewrite (IH Hs), andb_true_r.
  destruct (Ascii.eqb_spec c "{") as [-> | Hne]; [discriminate | reflexivity].
Qed.

Lemma append_cancel_l (p a b : string) : p +:+ a = p +:+ b -> a = b.
Proof. induction p as [|c p IH]; simpl; [easy |]. intros [= E]. now apply IH. Qed.

(** Conversely, a string that survives the two directions holds no
    [{name}] placeholder. *)
Lemma braceToColon_colonToBrace_inv (s : string) :
  braceToColon (colonToBrace s) = s -> no_brace_param s = true.
Proof.
  remember (String.length s) as n eqn:Hn. revert s Hn.
  induction n as [n IH] using lt_wf_ind. intros s Hn Hs.
  destruct s as [|c r]; [reflexivity |].
  destruct (colon_param_at_cases (String c r))
    as [E | (d & name & r' & Heq & Hw & Hr & E)].
  - rewrite colonToBrace_skip in Hs by exact E.
    destruct (brace_param_at (String c (colonToBrace r))) as [[text group1]|] eqn:Hb.
    + exfalso. destruct (Ascii.eqb_spec c "{") as [-> | Hne];
        [| rewrite brace_param_at_other in Hb by exact Hne; discriminate].
      destruct (brace_param_at_well_formed _ _ _ Hb) as (c' & m & rest & -> & Hrest).
      injection Hrest as <- Hrest. rewrite Hrest in Hs, Hb.
      unfold braceToColon in Hs. rewrite (js_replace_matched _ _ _ _ _ _ Hb) in Hs.
      discriminate Hs.
    + rewrite braceToColon_skip in Hs by exact Hb. injection Hs as Hs.
      rewrite no_brace_param_cons.
      assert (Hc : brace_param_at (String c r) = None).
      { destruct (Ascii.eqb_spec c "{") as [-> | Hne].
        - now apply brace_param_at_colonToBrace_inv.
        - now apply brace_param_at_other. }
      rewrite Hc. apply (IH (String.length r)); [subst n; simpl; lia | reflexivity | exact Hs].
  - rewrite Heq in *. rewrite colonToBrace_param in Hs by exact E.
    rewrite braceToColon_param in Hs by exact Hw.
    injection Hs as Hs. apply append_cancel_l in Hs.
    apply (no_brace_param_app (String ":" (String d name))).
    + change (Str.all (fun c => negb (Ascii.eqb c "{")) (String d name) = true).
      now apply word_no_open.
    + apply (IH (String.length r')); [| reflexivity | exact Hs].
      subst n. simpl. rewrite length_append. lia.
Qed.

(** ** [parseInt] on the decimal rendering of an integer *)

Lemma takeWhile_all (f : ascii -> bool) (s : string) :
  Str.all f s = true -> Str.takeWhile f s = s.
Proof.
  induction s as [|c s IH]; simpl; [reflexivity |].
  intros H. apply andb_prop in H as [Hc Hs]. rewrite Hc. f_equal. now apply IH.
Qed.

Lemma digits_all (d : uint) : Str.all Str.isDigit (NilEmpty.string_of_uint d) = true.
Proof. induction d; simpl; auto. Qed.

Lemma mathInt_unsigned (c : ascii) (r : string) :
  Str.isDigit c = true -> Str.all Str.isDigit r = true ->
  mathInt (String c r)
  = option_map Z.of_uint (NilEmpty.uint_of_string (String c r)).
Proof.
  intros Hc Hr. unfold mathInt.
  destruct c as [[] [] [] [] [] [] [] []]; try (cbv in Hc; discriminate Hc);
    simpl; rewrite (takeWhile_all _ _ Hr);
    destruct (NilEmpty.uint_of_string r); reflexivity.
Qed.

Lemma mathInt_negative (c : ascii) (r : string) :
  Str.isDigit c = true -> Str.all Str.isDigit r = true ->
  mathInt (String "-" (String c r))
  = option_map (fun d => (- Z.of_uint d)%Z)
      (NilEmpty.uint_of_string (String c r)).
Proof.
  intros Hc Hr. unfold mathInt.
  destruct c as [[] [] [] [] [] [] [] []]; try (cbv in Hc; discriminate Hc);
    simpl; rewrite (takeWhile_all _ _ Hr);
    destruct (NilEmpty.uint_of_string r); reflexivity.
Qed.

Lemma digits_head (d : uint) :
  d <> Nil ->
  exists c r, NilEmpty.string_of_uint d = String c r /\
              Str.isDigit c = true /\ Str.all Str.isDigit r = true.
Proof.
  intros Hd. destruct d; [now elim Hd | ..]; simpl;
    eexists _, _; (split; [reflexivity | split; [reflexivity | apply digits_all]]).
Qed.

Lemma mathInt_ofZ (n : Z) : mathInt (Str.ofZ n) = Some n.
Proof.
  destruct n as [|p|p]; [reflexivity | |].
  - pose proof (DecimalPos.Unsigned.to_uint_nonnil p) as Hnil.
    destruct (digits_head _ Hnil) as (c & r & E & Hc & Hr).
    unfold Str.ofZ. simpl. unfold NilZero.string_of_uint.
    destruct (Pos.to_uint p) eqn:Ep; try (now elim Hnil);
      rewrite <- Ep in *; rewrite E, (mathInt_unsigned _ _ Hc Hr), <- E,
        NilEmpty.usu; simpl; f_equal;
      exact (DecimalZ.of_to (Zpos p)).
  - pose proof (DecimalPos.Unsigned.to_uint_nonnil p) as Hnil.
    destruct (digits_head _ Hnil) as (c & r & E & Hc & Hr).
    unfold Str.ofZ. simpl. unfold NilZero.string_of_uint.
    destruct (Pos.to_uint p) eqn:Ep; try (now elim Hnil);
      rewrite <- Ep in *; rewrite E, (mathInt_negative _ _ Hc Hr), <- E,
        NilEmpty.usu; simpl; f_equal;
      exact (DecimalZ.of_to (Zneg p)).
Qed.

Lemma toDouble_safe (n : Z) : isSafeInteger n = true -> toDouble n = n.
Proof. intros Hn. unfold toDouble. now rewrite Hn. Qed.

Lemma parseInt_ofZ (n : Z) : parseInt (Str.ofZ n) = Some (toDouble n).
Proof. unfold parseInt. now rewrite mathInt_ofZ. Qed.

Lemma parseInt_safe (n : Z) :
  isSafeInteger n = true -> parseInt (Str.ofZ n) = Some n.
Proof. intros Hn. now rewrite parseInt_ofZ, toDouble_safe. Qed.

Lemma isSafeInteger_bounds (n : Z) :
  (0 <= n <= MAX_SAFE_INTEGER)%Z -> isSafeInteger n = true.
Proof. intros Hn. unfold isSafeInteger. apply Z.leb_le. lia. Qed.

(** ** Splitting a host at the colons *)

Lemma split_no_colon (s : string) :
  Str.all noColon s = true -> Str.split ":" s = [s].
Proof.
  induction s as [|c s IH]; simpl; [reflexivity |].
  intros H. apply andb_prop in H as [Hc Hs]. unfold noColon in Hc.
  destruct (Ascii.eqb c ":"); [discriminate |]. now rewrite IH.
Qed.

Lemma split_at_colon (hostname rest : string) :
  Str.all noColon hostname = true ->
  Str.split ":" (hostname +:+ String ":" rest) = hostname :: Str.split ":" rest.
Proof.
  induction hostname as [|c s IH]; simpl; [reflexivity |].
  intros H. apply andb_prop in H as [Hc Hs]. unfold noColon in Hc.
  destruct (Ascii.eqb c ":"); [discriminate |]. now rewrite IH.
Qed.

Lemma digit_noColon (s : string) :
  Str.all Str.isDigit s = true -> Str.all noColon s = true.
Proof.
  induction s as [|c s IH]; simpl; [reflexivity |].
  intros H. apply andb_prop in H as [Hc Hs]. rewrite (IH Hs), andb_true_r.
  destruct (Ascii.eqb_spec c ":") as [-> | Hne]; [discriminate | ].
  unfold noColon. now apply Bool.negb_true_iff, Ascii.eqb_neq.
Qed.

Lemma ofZ_noColon (n : Z) : (0 < n)%Z -> Str.all noColon (Str.ofZ n) = true.
Proof.
  destruct n as [|p|p]; try lia. intros _. apply digit_noColon.
  unfold Str.ofZ. simpl. unfold NilZero.string_of_uint.
  destruct (Pos.to_uint p) eqn:Ep; [reflexivity | ..]; rewrite <- Ep; apply digits_all.
Qed.

(** ** The monads *)

(** Running an entry point: unfold the operations of [M] down to the case
    analysis on what the collaborators return. *)
Ltac run_M :=
  unfold mbind, try_catch, lift, logger, addToast, mret; cbn.

Lemma mapM_app {A B : Type} (f : A -> outcome B) (l1 l2 : list A) :
  mapM f (l1 ++ l2)
  = (do a <- mapM f l1 ;; do b <- mapM f l2 ;; Return (a ++ b)).
Proof.
  induction l1 as [|x l1 IH]; simpl.
  - destruct (mapM f l2); reflexivity.
  - destruct (f x); simpl; [| reflexivity]. rewrite IH.
    destruct (mapM f l1); simpl; [| reflexivity].
    destruct (mapM f l2); reflexivity.
Qed.

Lemma mapM_Return {A B : Type} (f : A -> outcome B) (l : list A) (bs : list B) :
  mapM f l = Return bs -> Forall2 (fun a b => f a = Return b) l bs.
Proof.
  revert bs. induction l as [|x l IH]; simpl; intros bs E.
  - injection E as <-. constructor.
  - destruct (f x) as [b|] eqn:Ex; simpl in E; [| discriminate].
    destruct (mapM f l) as [bs'|]; simpl in E; [| discriminate].
    injection E as <-. constructor; [exact Ex | now apply IH].
Qed.

Lemma mapM_total {A B : Type} (f : A -> outcome B) (l : list A) :
  (forall a, In a l -> exists b, f a = Return b) ->
  exists bs, mapM f l = Return bs.
Proof.
  induction l as [|x l IH]; simpl; intros Hl; [now exists [] |].
  destruct (Hl x (or_introl eq_refl)) as [b Eb]. rewrite Eb.
  destruct IH as [bs Ebs]; [intros a Ha; apply Hl; now right |].
  rewrite Ebs. now exists (b :: bs).
Qed.

(** ** Routes of an imported document *)

Section ImportLemmas.

Context `{SchemasBuilderService} `{Externals}.

Lemma find_code_Some (n : Z) (sc : StatusCode) :
  List.find (fun sc => (code sc =? n)%Z) statusCodes = Some sc ->
  In n supportedCodes.
Proof.
  intros F. apply List.find_some in F as [Hin E].
  apply Z.eqb_eq in E. subst n. unfold supportedCodes. now apply in_map.
Qed.

Lemma supportedCodes_safe (n : Z) :
  In n supportedCodes -> isSafeInteger n = true.
Proof.
  intros Hin. unfold supportedCodes in Hin.
  apply in_map_iff in Hin as (sc & <- & Hsc).
  exact (proj1 (List.forallb_forall _ _) statusCodes_safe sc Hsc).
Qed.

Lemma find_code_None (n : Z) :
  List.find (fun sc => (code sc =? n)%Z) statusCodes = None ->
  ~ In n supportedCodes.
Proof.
  intros F Hin. unfold supportedCodes in Hin.
  apply in_map_iff in Hin as (sc & E & Hsc).
  pose proof (List.find_none _ _ F sc Hsc) as N. simpl in N.
  apply Z.eqb_neq in N. contradiction.
Qed.

Lemma pushRouteResponse_skip version parsedRoute responseStatus routeResponse acc :
  (forall n, ~ passes responseStatus n) ->
  pushRouteResponse version parsedRoute (responseStatus, routeResponse) acc = acc.
Proof.
  intros Hno. unfold pushRouteResponse.
  destruct (parseInt responseStatus) as [n|] eqn:E; [| reflexivity].
  destruct (List.find _ statusCodes) eqn:F; [| reflexivity].
  elim (Hno n). split; [exact E | eapply find_code_Some; exact F].
Qed.

Lemma pushRouteResponse_keep version parsedRoute responseStatus routeResponse acc n :
  passes responseStatus n ->
  pushRouteResponse version parsedRoute (responseStatus, routeResponse) acc
  = acc ++ [importedResponse version parsedRoute n routeResponse].
Proof.
  intros [E Hin]. unfold pushRouteResponse. rewrite E.
  destruct (List.find _ statusCodes) eqn:F; [reflexivity |].
  now apply find_code_None in F.
Qed.

Lemma passes_dec (responseStatus : string) :
  (exists n, passes responseStatus n) \/ (forall n, ~ passes responseStatus n).
Proof.
  unfold passes. destruct (parseInt responseStatus) as [n|].
  - destruct (in_dec Z.eq_dec n supportedCodes) as [Hin | Hout].
    + left. now exists n.
    + right. intros m [E Hm]. injection E as <-. contradiction.
  - right. intros m [E _]. discriminate.
Qed.

(** The responses kept from the declared ones, one or none per key. *)
Lemma pushRouteResponse_acc version parsedRoute entry acc :
  pushRouteResponse version parsedRoute entry acc
  = acc ++ pushRouteResponse version parsedRoute entry [].
Proof.
  destruct entry as [responseStatus routeResponse].
  destruct (passes_dec responseStatus) as [[n Hn] | Hno].
  - now rewrite !(pushRouteResponse_keep _ _ _ _ _ n Hn).
  - rewrite !pushRouteResponse_skip by exact Hno. now rewrite app_nil_r.
Qed.

Lemma fold_pushRouteResponse version parsedRoute declared acc :
  fold_left (fun acc entry => pushRouteResponse version parsedRoute entry acc)
    declared acc
  = acc ++ flat_map (fun entry => pushRouteResponse version parsedRoute entry [])
             declared.
Proof.
  revert acc. induction declared as [|entry declared IH]; intros acc; simpl.
  - now rewrite app_nil_r.
  - rewrite IH, pushRouteResponse_acc. now rewrite <- app_assoc.
Qed.

Lemma createRoute_Some version routePath routeMethod parsedRoute declared :
  op_responses parsedRoute = Some declared ->
  createRoute version routePath routeMethod parsedRoute
  = Return {| documentation :=
                or_else (op_summary parsedRoute)
                  (or_else (op_description parsedRoute) "");
              method := routeMethod;
              endpoint := RemoveLeadingSlash (braceToColon routePath);
              responses :=
                match keptResponses version parsedRoute declared with
                | [] => [fallbackResponse]
                | kept => kept
                end |}.
Proof.
  intros E. unfold createRoute. rewrite E. cbn [obind].
  rewrite parametersReplace_path. cbn [obind].
  rewrite fold_pushRouteResponse. cbn [app]. fold (keptResponses version parsedRoute declared).
  destruct (keptResponses version parsedRoute declared); reflexivity.
Qed.

Lemma createRoute_None version routePath routeMethod parsedRoute :
  op_responses parsedRoute = None ->
  createRoute version routePath routeMethod parsedRoute
  = Throw (TypeError "Cannot convert undefined or null to object").
Proof. intros E. unfold createRoute. now rewrite E. Qed.

Lemma createRoutes_mapM parsedAPI version :
  createRoutes parsedAPI version
  = mapM (fun '(routePath, routeMethod, parsedRoute) =>
            createRoute version routePath routeMethod parsedRoute)
      (whitelisted parsedAPI).
Proof.
  unfold createRoutes, whitelisted.
  set (create := fun '(routePath, routeMethod, parsedRoute) =>
                   createRoute version routePath routeMethod parsedRoute).
  set (inner := fun (routePath : string) (pathItem : list (string * OperationObject)) =>
                  flat_map (fun '(routeMethod, parsedRoute) =>
                              if Str.includes routeMethod methods
                              then [(routePath, routeMethod, parsedRoute)]
                              else []) pathItem).
  assert (Hinner : forall routePath pathItem acc,
    forEach pathItem
      (fun '(routeMethod, parsedRoute) routes =>
         if Str.includes routeMethod methods
         then do newRoute <- createRoute version routePath routeMethod parsedRoute ;;
              Return (routes ++ [newRoute])
         else Return routes) acc
    = (do rs <- mapM create (inner routePath pathItem) ;; Return (acc ++ rs))).
  { intros routePath pathItem. induction pathItem as [|[m op] item IH]; intros acc.
    - simpl. now rewrite app_nil_r.
    - cbn [forEach inner flat_map]. fold (inner routePath item).
      destruct (Str.includes m methods).
      + rewrite mapM_app. cbn [mapM create].
        destruct (createRoute version routePath m op) as [r|e]; cbn [obind]; [| reflexivity].
        rewrite IH. destruct (mapM create (inner routePath item)); cbn [obind app];
          [now rewrite <- app_assoc | reflexivity].
      + cbn [obind app]. apply IH. }
  assert (Houter : forall l acc,
    forEach l
      (fun '(routePath, pathItem) routes =>
         forEach pathItem
           (fun '(routeMethod, parsedRoute) routes =>
              if Str.includes routeMethod methods
              then do newRoute <- createRoute version routePath routeMethod parsedRoute ;;
                   Return (routes ++ [newRoute])
              else Return routes) routes) acc
    = (do rs <- mapM create (flat_map (fun '(routePath, pathItem) => inner routePath pathItem) l) ;;
       Return (acc ++ rs))).
  { induction l as [|[p item] l IH]; intros acc.
    - simpl. now rewrite app_nil_r.
    - cbn [forEach flat_map]. rewrite Hinner, mapM_app.
      destruct (mapM create (inner p item)) as [rs|e]; cbn [obind]; [| reflexivity].
      rewrite IH. destruct (mapM create _); cbn [obind];
        [now rewrite <- app_assoc | reflexivity]. }
  rewrite Houter. destruct (mapM create _); reflexivity.
Qed.

End ImportLemmas.

Lemma includes_In (x : string) (l : list string) :
  Str.includes x l = true <-> In x l.
Proof.
  unfold Str.includes. rewrite existsb_exists. split.
  - intros (y & Hy & E). apply String.eqb_eq in E. now subst y.
  - intros Hx. exists x. split; [exact Hx | apply String.eqb_refl].
Qed.

Section ImportInversion.

Context `{SchemasBuilderService} `{Externals}.

Lemma keptResponses_In version parsedRoute declared routeResponse :
  In routeResponse (keptResponses version parsedRoute declared) <->
  exists responseStatus declaredResponse n,
    In (responseStatus, declaredResponse) declared /\
    passes responseStatus n /\
    routeResponse = importedResponse version parsedRoute n declaredResponse.
Proof.
  unfold keptResponses. rewrite in_flat_map. split.
  - intros ([responseStatus declaredResponse] & Hin & Hpush).
    destruct (passes_dec responseStatus) as [[n Hn] | Hno].
    + rewrite (pushRouteResponse_keep _ _ _ _ _ n Hn) in Hpush.
      destruct Hpush as [<- | []]. now exists responseStatus, declaredResponse, n.
    + rewrite pushRouteResponse_skip in Hpush by exact Hno. destruct Hpush.
  - intros (responseStatus & declaredResponse & n & Hin & Hn & ->).
    exists (responseStatus, declaredResponse). split; [exact Hin |].
    rewrite (pushRouteResponse_keep _ _ _ _ _ n Hn). now left.
Qed.

Lemma keptResponses_nil version parsedRoute declared :
  (forall responseStatus declaredResponse n,
      In (responseStatus, declaredResponse) declared -> ~ passes responseStatus n) ->
  keptResponses version parsedRoute declared = [].
Proof.
  intros Hno. destruct (keptResponses version parsedRoute declared) as [|rr l] eqn:E;
    [reflexivity |].
  assert (Hin : In rr (keptResponses version parsedRoute declared))
    by (rewrite E; now left).
  apply keptResponses_In in Hin as (k & r & n & Hin & Hn & _).
  now elim (Hno k r n Hin).
Qed.

Lemma createRoute_inv version routePath routeMethod parsedRoute route :
  createRoute version routePath routeMethod parsedRoute = Return route ->
  exists declared,
    op_responses parsedRoute = Some declared /\
    method route = routeMethod /\
    endpoint route = RemoveLeadingSlash (braceToColon routePath) /\
    responses route
    = match keptResponses version parsedRoute declared with
      | [] => [fallbackResponse]
      | kept => kept
      end.
Proof.
  destruct (op_responses parsedRoute) as [declared|] eqn:E.
  - rewrite (createRoute_Some _ _ _ _ _ E). intros [= <-].
    exists declared. repeat split.
  - rewrite (createRoute_None _ _ _ _ E). discriminate.
Qed.

Lemma createRoute_nonempty version routePath routeMethod parsedRoute route :
  createRoute version routePath routeMethod parsedRoute = Return route ->
  responses route <> [].
Proof.
  intros E. apply createRoute_inv in E as (declared & _ & _ & _ & ->).
  destruct (keptResponses version parsedRoute declared); discriminate.
Qed.

Lemma createRoutes_nonempty parsedAPI version routes :
  createRoutes parsedAPI version = Return routes ->
  forall route, In route routes -> responses route <> [].
Proof.
  rewrite createRoutes_mapM. intros E. apply mapM_Return in E.
  induction E as [|[[p m] op] r l rs Hr _ IH]; intros route Hin; [destruct Hin |].
  destruct Hin as [<- | Hin]; [now apply createRoute_nonempty in Hr | now apply IH].
Qed.

Lemma convertFromSwagger_inv parsedAPI environment :
  convertFromSwagger parsedAPI = Return environment ->
  createRoutes parsedAPI SWAGGER = Return (routes environment).
Proof.
  unfold convertFromSwagger.
  destruct (createRoutes parsedAPI SWAGGER) as [rs|]; cbn [obind]; [| discriminate].
  now intros [= <-].
Qed.

Lemma convertFromOpenAPIV3_inv parsedAPI environment :
  convertFromOpenAPIV3 parsedAPI = Return environment ->
  createRoutes parsedAPI OPENAPI_V3 = Return (routes environment).
Proof.
  unfold convertFromOpenAPIV3.
  match goal with |- obind ?prefix _ = _ -> _ => destruct prefix as [newPrefix|] end;
    cbn [obind]; [| discriminate].
  destruct (createRoutes parsedAPI OPENAPI_V3) as [rs|]; cbn [obind]; [| discriminate].
  now intros [= <-].
Qed.

Lemma import_Some filePath w environment w' :
  import filePath w = (Return (Some environment), w') ->
  exists parsedAPI,
    dereference filePath = Return parsedAPI /\
    (convertFromSwagger parsedAPI = Return environment \/
     convertFromOpenAPIV3 parsedAPI = Return environment).
Proof.
  unfold import. run_M.
  destruct (dereference filePath) as [parsedAPI|e]; [| discriminate].
  destruct (isSwagger parsedAPI).
  - destruct (convertFromSwagger parsedAPI) as [env|e] eqn:E; [| discriminate].
    intros [= <- _]. exists parsedAPI. auto.
  - destruct (isOpenAPIV3 parsedAPI); [| discriminate].
    destruct (convertFromOpenAPIV3 parsedAPI) as [env|e] eqn:E; [| discriminate].
    intros [= <- _]. exists parsedAPI. auto.
Qed.

End ImportInversion.

(** ** Export *)

Lemma js_replace_no_match match_at f (s : string) :
  matched_texts (scan match_at 0 s) = [] -> js_replace match_at f s = s.
Proof.
  unfold js_replace. induction s as [|c r IH]; [reflexivity |].
  cbn [scan]. destruct (match_at (String c r)) as [[text group1]|]; [discriminate |].
  cbn [matched_texts flat_map app fold_right]. intros E. f_equal. now apply IH.
Qed.

Lemma exportEndpoint_replace (route_endpoint : string) :
  exportEndpoint route_endpoint = "/" +:+ colonToBrace route_endpoint.
Proof.
  unfold exportEndpoint, js_match, colonToBrace.
  destruct (matched_texts (scan colon_param_at 0 route_endpoint)) eqn:E;
    [now rewrite js_replace_no_match | reflexivity].
Qed.

Lemma push_parameters (found : list string) (acc : list ParameterObject) :
  fold_left
    (fun parameters parameter =>
       parameters ++
         [ {| param_name := slice1 parameter;
              param_in := "path";
              param_schema_type := "string";
              param_required := true |} ]) found acc
  = acc ++ List.map pathParameter (List.map slice1 found).
Proof.
  revert acc. induction found as [|x found IH]; intros acc; simpl.
  - now rewrite app_nil_r.
  - rewrite IH, <- app_assoc. reflexivity.
Qed.

Lemma exportParameters_names (route_endpoint : string) :
  exportParameters route_endpoint
  = match parameterNames route_endpoint with
    | [] => None
    | names => Some (List.map pathParameter names)
    end.
Proof.
  unfold exportParameters, parameterNames, js_match.
  destruct (matched_texts (scan colon_param_at 0 route_endpoint)) as [|x found];
    [reflexivity |].
  now rewrite push_parameters.
Qed.

Lemma find_app {A : Type} (p : A -> bool) (l1 l2 : list A) :
  List.find p (l1 ++ l2)
  = match List.find p l1 with
    | Some x => Some x
    | None => List.find p l2
    end.
Proof.
  induction l1 as [|x l1 IH]; simpl; [reflexivity |].
  destruct (p x); [reflexivity | exact IH].
Qed.





Section ExportLemmas.

Context `{Externals}.


Lemma exportRoute_Return (environment : Environment) (route : Route)
    (paths : gmap string (gmap string ExportedOperation))
    (exported : gmap string ExportedResponse) :
  exportResponses environment route = Return exported ->
  exportRoute environment route paths
  = Return (<[exportEndpoint (endpoint route) :=
                <[method route :=
                    {| eo_description := documentation route;
                       eo_responses := exported;
                       eo_parameters := exportParameters (endpoint route) |}]>
                  (default ∅ (paths !! exportEndpoint (endpoint route)))]> paths).
Proof. intros E. unfold exportRoute. now rewrite E. Qed.

Lemma exportRoute_Throw (environment : Environment) (route : Route)
    (paths : gmap string (gmap string ExportedOperation)) (e : JsError) :
  exportResponses environment route = Throw e ->
  exportRoute environment route paths = Throw e.
Proof. intros E. unfold exportRoute. now rewrite E. Qed.

(** The operation that a route writes, when its responses are built. *)
Lemma exportRoute_operationAt (environment : Environment) (route : Route)
    (paths paths' : gmap string (gmap string ExportedOperation)) :
  exportRoute environment route paths = Return paths' ->
  exists exported,
    exportResponses environment route = Return exported /\
    forall pathKey methodKey,
      operationAt paths' pathKey methodKey
      = if writesAt pathKey methodKey route
        then Some {| eo_description := documentation route;
                     eo_responses := exported;
                     eo_parameters := exportParameters (endpoint route) |}
        else operationAt paths pathKey methodKey.
Proof.
  destruct (exportResponses environment route) as [exported|e] eqn:E.
  - rewrite (exportRoute_Return _ _ _ _ E). intros [= <-]. exists exported.
    split; [reflexivity |]. intros pathKey methodKey. unfold operationAt, writesAt.
    destruct (String.eqb_spec (exportEndpoint (endpoint route)) pathKey) as [<- | Hk];
      cbn [andb].
    + rewrite lookup_insert_eq.
      destruct (String.eqb_spec (method route) methodKey) as [<- | Hm].
      * apply lookup_insert_eq.
      * rewrite lookup_insert_ne by exact Hm.
        destruct (paths !! exportEndpoint (endpoint route)); [reflexivity |].
        apply lookup_empty.
    + now rewrite lookup_insert_ne.
  - rewrite (exportRoute_Throw _ _ _ _ E). discriminate.
Qed.

(** In the folded paths, a path key and a method key hold the operation of
    the last route written there. *)
Lemma exported_paths_operationAt (environment : Environment) (l : list Route)
    (acc paths : gmap string (gmap string ExportedOperation)) :
  forEach l (exportRoute environment) acc = Return paths ->
  forall pathKey methodKey,
    operationAt paths pathKey methodKey
    = match List.find (writesAt pathKey methodKey) (rev l) with
      | Some route =>
          match exportResponses environment route with
          | Return exported =>
              Some {| eo_description := documentation route;
                      eo_responses := exported;
                      eo_parameters := exportParameters (endpoint route) |}
          | Throw _ => None
          end
      | None => operationAt acc pathKey methodKey
      end.
Proof.
  revert acc. induction l as [|route l IH]; intros acc E pathKey methodKey.
  - injection E as <-. reflexivity.
  - cbn [forEach] in E.
    destruct (exportRoute environment route acc) as [acc'|e] eqn:Estep;
      [| discriminate].
    cbn [obind] in E. rewrite (IH _ E). cbn [rev]. rewrite find_app.
    destruct (List.find (writesAt pathKey methodKey) (rev l)); [reflexivity |].
    apply exportRoute_operationAt in Estep as (exported & Er & Hat).
    rewrite Hat. cbn [List.find].
    destruct (writesAt pathKey methodKey route); [now rewrite Er | reflexivity].
Qed.

Lemma exported_paths_responses (environment : Environment) (l : list Route)
    (acc paths : gmap string (gmap string ExportedOperation)) :
  forEach l (exportRoute environment) acc = Return paths ->
  forall route, In route l ->
    exists exported, exportResponses environment route = Return exported.
Proof.
  revert acc. induction l as [|r l IH]; intros acc E route Hin; [destruct Hin |].
  cbn [forEach] in E.
  destruct (exportRoute environment r acc) as [acc'|e] eqn:Estep; [| discriminate].
  cbn [obind] in E. destruct Hin as [<- | Hin].
  - apply exportRoute_operationAt in Estep as (exported & Er & _). now exists exported.
  - exact (IH _ E route Hin).
Qed.

(** Every exported route has its path key and its method in the paths. *)
Lemma exported_paths_key (environment : Environment) (l : list Route)
    (paths : gmap string (gmap string ExportedOperation)) :
  forEach l (exportRoute environment) ∅ = Return paths ->
  forall route, In route l ->
    exists pathItem operation,
      paths !! exportEndpoint (endpoint route) = Some pathItem /\
      pathItem !! method route = Some operation.
Proof.
  intros E route Hin.
  pose proof (exported_paths_operationAt _ _ _ _ E
                (exportEndpoint (endpoint route)) (method route)) as Hat.
  destruct (List.find _ (rev l)) as [emitted|] eqn:F.
  - apply List.find_some in F as [Hem _]. apply in_rev in Hem.
    destruct (exported_paths_responses _ _ _ _ E emitted Hem) as [exported Er].
    rewrite Er in Hat. unfold operationAt in Hat.
    destruct (paths !! exportEndpoint (endpoint route)) as [pathItem|];
      [| discriminate].
    exists pathItem. eexists. split; [reflexivity | exact Hat].
  - pose proof (List.find_none _ _ F route (proj1 (in_rev _ _) Hin)) as N.
    unfold writesAt in N. now rewrite !String.eqb_refl in N.
Qed.

(** [export] on an environment whose paths are built: the serialized
    document, no toast, and a log line more when the validator throws. *)
Lemma export_Return (environment : Environment)
    (paths : gmap string (gmap string ExportedOperation)) (w : World) :
  forEach (routes environment) (exportRoute environment) ∅ = Return paths ->
  exists validation,
    export environment w
    = (Return (Some (JSON_stringify (exportedDocument environment paths))),
       {| toasts := toasts w;
          logs := (logs w ++
                   [(log_info, "Starting environment " +:+ uuid environment
                                 +:+ " export to OpenAPI file")])
                  ++ validation |}) /\
    match validate (exportedDocument environment paths) with
    | Return _ => validation = []
    | Throw e =>
        validation
        = [(log_error,
            "Error while validating OpenAPI export object: " +:+ message e)]
    end.
Proof.
  intros E.
  assert (G : export environment w
    = match validate (exportedDocument environment paths) with
      | Return _ =>
          (Return (Some (JSON_stringify (exportedDocument environment paths))),
           {| toasts := toasts w;
              logs := logs w ++
                      [(log_info, "Starting environment " +:+ uuid environment
                                    +:+ " export to OpenAPI file")] |})
      | Throw e =>
          (Return (Some (JSON_stringify (exportedDocument environment paths))),
           {| toasts := toasts w;
              logs := (logs w ++
                       [(log_info, "Starting environment " +:+ uuid environment
                                     +:+ " export to OpenAPI file")])
                      ++ [(log_error,
                           "Error while validating OpenAPI export object: "
                             +:+ message e)] |})
      end).
  { unfold export, convertToOpenAPIV3, exportedDocument.
    cbv beta iota zeta delta [mbind try_catch lift logger addToast mret toasts logs].
    rewrite E. cbv beta iota.
    match goal with |- context [validate ?d] => destruct (validate d) end;
      reflexivity. }
  rewrite G. destruct (validate (exportedDocument environment paths)) as [[]|e].
  - exists []. split; [now rewrite app_nil_r | reflexivity].
  - eexists. split; reflexivity.
Qed.

End ExportLemmas.

(** * The claims *)

(** ** Path parameters *)

(** C1, as amended.  For every internal endpoint string, export produces
    the path key made of a slash and the endpoint with every [:name]
    replaced by [{name}], and the exported paths hold that key for every
    route of the environment; the route imported from that path key (any
    version, any method key, any operation that declares responses) carries
    the original endpoint again if, and only if, the endpoint contains no
    [{name}] placeholder of its own.  The endpoint
    [users/:id/orders/:orderId] exports to [/users/{id}/orders/{orderId}]. *)
Theorem path_parameter_round_trip `{SchemasBuilderService} `{Externals}
    (route_endpoint : string) (version : SpecificationVersions)
    (routeMethod : string) (summary description : option string)
    (produces : option (list string))
    (declared : list (string * ResponseObject)) :
  exportEndpoint route_endpoint = "/" +:+ colonToBrace route_endpoint /\
  (forall environment paths exported,
      forEach (routes environment) (exportRoute environment) ∅ = Return paths ->
      In exported (routes environment) ->
      endpoint exported = route_endpoint ->
      is_Some (paths !! ("/" +:+ colonToBrace route_endpoint))) /\
  (exists route,
      createRoute version (exportEndpoint route_endpoint) routeMethod
        {| op_summary := summary; op_description := description;
           op_produces := produces; op_responses := Some declared |}
      = Return route /\
      (endpoint route = route_endpoint <-> no_brace_param route_endpoint = true)) /\
  exportEndpoint "users/:id/orders/:orderId" = "/users/{id}/orders/{orderId}".
Proof.
  split; [apply exportEndpoint_replace | split; [| split; [| reflexivity]]].
  { intros environment paths exported E Hin <-.
    destruct (exported_paths_key _ _ _ E exported Hin) as (pathItem & _ & Hk & _).
    rewrite <- exportEndpoint_replace. now exists pathItem. }
  eexists. split; [apply createRoute_Some; reflexivity |].
  cbn [endpoint]. rewrite exportEndpoint_replace.
  change ("/" +:+ colonToBrace route_endpoint)
    with (String "/" (colonToBrace route_endpoint)).
  rewrite braceToColon_skip by reflexivity.
  cbn [RemoveLeadingSlash].
  split; [apply braceToColon_colonToBrace_inv | apply braceToColon_colonToBrace].
Qed.

Lemma path_parameter_round_trip_witness :
  exists route,
    @createRoute Demo.builder Demo.externals OPENAPI_V3
      (exportEndpoint "users/:id/orders/:orderId") "get" (Demo.operation [])
    = Return route /\
    endpoint route = "users/:id/orders/:orderId".
Proof.
  destruct (@path_parameter_round_trip Demo.builder Demo.externals
              "users/:id/orders/:orderId" OPENAPI_V3 "get" None None None [])
    as (_ & _ & (route & E & Hiff) & _).
  exists route. split; [exact E | apply Hiff; reflexivity].
Defined.

(** C1 as stated fails on an endpoint that holds a brace placeholder
    besides its [:name] parameter: the import turns the placeholder into
    a parameter. *)
Lemma path_round_trip_breaks_on_braces :
  exportEndpoint "users/:id/{raw}" = "/users/{id}/{raw}" /\
  exists route,
    @createRoute Demo.builder Demo.externals OPENAPI_V3
      (exportEndpoint "users/:id/{raw}") "get" (Demo.operation [])
    = Return route /\
    endpoint route = "users/:id/:raw" /\
    endpoint route <> "users/:id/{raw}".
Proof.
  split; [reflexivity |]. eexists. split; [reflexivity |].
  split; [reflexivity | discriminate].
Qed.

(** ** Responses of an imported route *)

(** C2.  When an operation under a recognised method declares responses
    (possibly none) and every declared key is filtered out, the route built
    for it has exactly one response, whose header list is exactly the
    Content-Type header with value application/json; and every route of an
    environment returned by import has at least one response. *)
Theorem non_empty_responses `{SchemasBuilderService} `{Externals} :
  (forall version routePath routeMethod summary description produces declared,
      (forall responseStatus declaredResponse n,
          In (responseStatus, declaredResponse) declared ->
          ~ passes responseStatus n) ->
      exists route routeResponse,
        createRoute version routePath routeMethod
          {| op_summary := summary; op_description := description;
             op_produces := produces; op_responses := Some declared |}
        = Return route /\
        responses route = [routeResponse] /\
        rr_headers routeResponse
        = [ {| key := "Content-Type"; value := "application/json" |} ]) /\
  (forall filePath w environment w' route,
      import filePath w = (Return (Some environment), w') ->
      In route (routes environment) ->
      responses route <> []).
Proof.
  split.
  - intros version routePath routeMethod summary description produces declared Hno.
    eexists. exists fallbackResponse.
    split; [apply createRoute_Some; reflexivity |].
    cbn [responses op_responses]. rewrite keptResponses_nil by exact Hno.
    split; reflexivity.
  - intros filePath w environment w' route E Hin.
    apply import_Some in E as (parsedAPI & _ & [E | E]).
    + apply convertFromSwagger_inv in E. exact (createRoutes_nonempty _ _ _ E route Hin).
    + apply convertFromOpenAPIV3_inv in E. exact (createRoutes_nonempty _ _ _ E route Hin).
Qed.

(** C3, as amended.  An operation that declares responses yields a route
    whose responses are the ones kept from the declared keys, in order, or
    the single fallback response when none is kept.  A declared key gives a
    response exactly when [parseInt(key, 10)] is a supported status code,
    and the response then carries that number: such a key pushes one
    response, any other key pushes none; every such key has its response
    among the responses of the route, every response of the route comes
    from such a key or is the fallback, and the decimal numeral of a
    supported code passes with that code.  The keys default and abc pass
    with no number, and so does 2XX unless 2 is a supported code. *)
Theorem status_code_filtering `{SchemasBuilderService} `{Externals}
    (version : SpecificationVersions) (routePath routeMethod : string)
    (summary description : option string) (produces : option (list string))
    (declared : list (string * ResponseObject)) :
  let parsedRoute :=
    {| op_summary := summary; op_description := description;
       op_produces := produces; op_responses := Some declared |} in
  exists route,
    createRoute version routePath routeMethod parsedRoute = Return route /\
    responses route
    = match keptResponses version parsedRoute declared with
      | [] => [fallbackResponse]
      | kept => kept
      end /\
    (forall responseStatus declaredResponse n,
        passes responseStatus n ->
        pushRouteResponse version parsedRoute (responseStatus, declaredResponse) []
        = [importedResponse version parsedRoute n declaredResponse]) /\
    (forall responseStatus declaredResponse,
        (forall n, ~ passes responseStatus n) ->
        pushRouteResponse version parsedRoute (responseStatus, declaredResponse) []
        = []) /\
    (forall responseStatus declaredResponse n,
        In (responseStatus, declaredResponse) declared ->
        passes responseStatus n ->
        In (importedResponse version parsedRoute n declaredResponse)
          (responses route)) /\
    (forall routeResponse,
        In routeResponse (responses route) ->
        (exists responseStatus declaredResponse n,
            In (responseStatus, declaredResponse) declared /\
            passes responseStatus n /\
            routeResponse = importedResponse version parsedRoute n declaredResponse) \/
        (responses route = [fallbackResponse] /\
         forall responseStatus declaredResponse n,
           In (responseStatus, declaredResponse) declared ->
           ~ passes responseStatus n)) /\
    (forall n, In n supportedCodes -> passes (Str.ofZ n) n) /\
    (forall n, ~ passes "default" n /\ ~ passes "abc" n /\
               (~ In 2%Z supportedCodes -> ~ passes "2XX" n)).
Proof.
  intros parsedRoute. eexists. split; [apply createRoute_Some; reflexivity |].
  cbn [responses]. fold parsedRoute. split; [reflexivity |].
  split; [intros k r n Hn; exact (pushRouteResponse_keep _ _ _ _ [] n Hn) |].
  split; [intros k r Hno; now apply pushRouteResponse_skip |].
  destruct (keptResponses version parsedRoute declared) as [|rr kept] eqn:E.
  - split; [| split; [| split]].
    + intros k r n Hin Hn.
      assert (Hk : In (importedResponse version parsedRoute n r)
                     (keptResponses version parsedRoute declared))
        by (apply keptResponses_In; now exists k, r, n).
      rewrite E in Hk. destruct Hk.
    + intros routeResponse _. right. split; [reflexivity |].
      intros k r n Hin Hn.
      assert (Hk : In (importedResponse version parsedRoute n r)
                     (keptResponses version parsedRoute declared))
        by (apply keptResponses_In; now exists k, r, n).
      rewrite E in Hk. destruct Hk.
    + intros n Hn. split; [apply parseInt_safe, supportedCodes_safe, Hn | exact Hn].
    + intros n. repeat split; try (intros [P _]; discriminate).
      intros Hout [P Hn]. injection P as <-. contradiction.
  - rewrite <- E. split; [| split; [| split]].
    + intros k r n Hin Hn. apply keptResponses_In. now exists k, r, n.
    + intros routeResponse Hin. left. now apply keptResponses_In.
    + intros n Hn. split; [apply parseInt_safe, supportedCodes_safe, Hn | exact Hn].
    + intros n. repeat split; try (intros [P _]; discriminate).
      intros Hout [P Hn]. injection P as <-. contradiction.
Qed.

(** C3 as stated fails on a key that starts with a supported code without
    being its numeral: [parseInt] reads the leading digits, and the
    response is kept with status 200. *)
Lemma inexact_key_passes_filter :
  (forall sc, In sc (@statusCodes Demo.externals) -> Str.ofZ (code sc) <> "200abc") /\
  @createRoute Demo.builder Demo.externals SWAGGER "/pets" "get"
    (Demo.operation [ ("200abc", Demo.response "a pet") ])
  = Return {| method := "get"; endpoint := "pets"; documentation := "";
              responses :=
                [ {| statusCode := 200; label := "a pet"; body := "";
                     rr_headers :=
                       [ {| key := "Content-Type";
                            value := "application/json" |} ] |} ] |}.
Proof.
  split; [| reflexivity].
  intros sc Hin. simpl in Hin.
  repeat (destruct Hin as [<- | Hin]; [discriminate |]). destruct Hin.
Qed.

Lemma status_code_filtering_witness :
  exists route,
    @createRoute Demo.builder Demo.externals SWAGGER "/pets" "get"
      (Demo.operation [ ("200", Demo.response "a pet");
                        ("2XX", Demo.response "any success") ])
    = Return route /\
    In (@importedResponse SWAGGER
          (Demo.operation [ ("200", Demo.response "a pet");
                            ("2XX", Demo.response "any success") ])
          200 (Demo.response "a pet"))
      (responses route) /\
    List.length (responses route) = 1.
Proof.
  destruct (@status_code_filtering Demo.builder Demo.externals SWAGGER "/pets" "get"
              None None None
              [ ("200", Demo.response "a pet"); ("2XX", Demo.response "any success") ])
    as (route & E & _ & _ & _ & Hkeep & _).
  exists route. split; [exact E | split].
  - apply (Hkeep "200" (Demo.response "a pet") 200%Z); [now left |].
    split; [reflexivity | now left].
  - injection E as <-. reflexivity.
Defined.

(** ** Recognised methods *)

(** C5, as amended.  The whitelist is matched exactly, case included.  When
    every operation under a whitelisted key declares responses, the routes
    are created; each key of a path item that is literally one of get,
    post, put, patch, delete, head, options gives a route with that method,
    and every route comes from such a key.  Any other key, an upper-case
    GET included, gives no route. *)
Theorem method_whitelist_exact `{SchemasBuilderService} `{Externals}
    (parsedAPI : ParsedAPI) (version : SpecificationVersions) :
  (forall routePath pathItem routeMethod parsedRoute,
      In (routePath, pathItem) (paths parsedAPI) ->
      In (routeMethod, parsedRoute) pathItem ->
      In routeMethod methods ->
      op_responses parsedRoute <> None) ->
  exists routes,
    createRoutes parsedAPI version = Return routes /\
    (forall routePath pathItem routeMethod parsedRoute,
        In (routePath, pathItem) (paths parsedAPI) ->
        In (routeMethod, parsedRoute) pathItem ->
        In routeMethod methods ->
        exists route,
          In route routes /\
          createRoute version routePath routeMethod parsedRoute = Return route /\
          method route = routeMethod) /\
    (forall route,
        In route routes ->
        exists routePath pathItem parsedRoute,
          In (routePath, pathItem) (paths parsedAPI) /\
          In (method route, parsedRoute) pathItem /\
          In (method route) methods /\
          createRoute version routePath (method route) parsedRoute = Return route).
Proof.
  intros Hresp.
  assert (Hwl : forall routePath routeMethod parsedRoute,
    In (routePath, routeMethod, parsedRoute) (whitelisted parsedAPI) <->
    exists pathItem,
      In (routePath, pathItem) (paths parsedAPI) /\
      In (routeMethod, parsedRoute) pathItem /\ In routeMethod methods).
  { intros p m op. unfold whitelisted. rewrite in_flat_map. split.
    - intros ([p' item] & Hp & Hin). apply in_flat_map in Hin as ([m' op'] & Hm & Hin).
      destruct (Str.includes m' methods) eqn:E; [| destruct Hin].
      destruct Hin as [[= <- <- <-] | []]. exists item.
      repeat split; [exact Hp | exact Hm | now apply includes_In].
    - intros (item & Hp & Hm & Hw). exists (p, item). split; [exact Hp |].
      apply in_flat_map. exists (m, op). split; [exact Hm |].
      apply includes_In in Hw. rewrite Hw. now left. }
  set (create := fun '(routePath, routeMethod, parsedRoute) =>
                   createRoute version routePath routeMethod parsedRoute).
  destruct (mapM_total create (whitelisted parsedAPI)) as [routes E].
  { intros [[p m] op] Hin. apply Hwl in Hin as (item & Hp & Hm & Hw).
    destruct (op_responses op) as [declared|] eqn:Ed; [| now elim (Hresp p item m op)].
    eexists. unfold create. apply createRoute_Some. exact Ed. }
  exists routes. split; [now rewrite createRoutes_mapM |].
  apply mapM_Return in E. split.
  - intros p item m op Hp Hm Hw.
    assert (Hin : In (p, m, op) (whitelisted parsedAPI)) by (apply Hwl; now exists item).
    clear - E Hin. induction E as [|x r l rs Hr _ IH]; [destruct Hin |].
    destruct Hin as [-> | Hin].
    + exists r. unfold create in Hr. split; [now left | split; [exact Hr |]].
      now apply createRoute_inv in Hr as (_ & _ & Hm & _).
    + destruct (IH Hin) as (route & Hroute & Hrest). exists route.
      split; [now right | exact Hrest].
  - intros route Hin.
    assert (G : exists x, In x (whitelisted parsedAPI) /\ create x = Return route).
    { clear - E Hin. induction E as [|x r l rs Hr _ IH]; [destruct Hin |].
      destruct Hin as [<- | Hin].
      - exists x. split; [now left | exact Hr].
      - destruct (IH Hin) as (y & Hy & Ey). exists y. split; [now right | exact Ey]. }
    destruct G as ([[p m] op] & Hx & Ex). unfold create in Ex.
    pose proof Ex as Em. apply createRoute_inv in Em as (_ & _ & Em & _). subst m.
    apply Hwl in Hx as (item & Hp & Hm & Hw). now exists p, item, op.
Qed.

Lemma method_whitelist_exact_witness :
  exists routes,
    @createRoutes Demo.builder Demo.externals
      (Demo.document (Some "2.0") None None None Demo.pets) SWAGGER
    = Return routes /\
    (forall routePath pathItem routeMethod parsedRoute,
        In (routePath, pathItem) Demo.pets ->
        In (routeMethod, parsedRoute) pathItem ->
        In routeMethod methods ->
        exists route,
          In route routes /\
          @createRoute Demo.builder Demo.externals SWAGGER routePath routeMethod
            parsedRoute = Return route /\
          method route = routeMethod) /\
    (forall route,
        In route routes ->
        exists routePath pathItem parsedRoute,
          In (routePath, pathItem) Demo.pets /\
          In (method route, parsedRoute) pathItem /\
          In (method route) methods /\
          @createRoute Demo.builder Demo.externals SWAGGER routePath (method route)
            parsedRoute = Return route).
Proof.
  apply (@method_whitelist_exact Demo.builder Demo.externals
           (Demo.document (Some "2.0") None None None Demo.pets) SWAGGER).
  intros routePath pathItem routeMethod parsedRoute Hp Hm _.
  simpl in Hp. destruct Hp as [[= <- <-] | []].
  simpl in Hm. destruct Hm as [[= <- <-] | []]. discriminate.
Defined.

(** C5 as stated fails on an upper-case method key: it equals get up to
    case, and no route is produced. *)
Lemma uppercase_method_is_dropped :
  In (Str.toLowerCase "GET") methods /\
  @createRoutes Demo.builder Demo.externals
    (Demo.document (Some "2.0") None None None
       [ ("/pets", [ ("GET", Demo.operation [ ("200", Demo.response "pets") ]) ]) ])
    SWAGGER
  = Return [].
Proof. split; [now left | reflexivity]. Qed.

(** ** Exported operations *)

(** C7, as amended.  When the paths of an environment are exported, the
    operation written for a route carries one parameter entry per
    occurrence of a [:name] parameter in the endpoint, in order of
    occurrence, each entry being the name, in path, schema type string,
    required; a name that occurs twice is entered twice.  A route without
    path parameters carries no parameters array.  In the exported paths, the
    path key and method of a route hold the operation of the last route
    written there, with the parameters of that route.  The endpoint
    [users/:id/orders/:orderId] gives the entries id and orderId. *)
Theorem export_path_parameters `{Externals} (environment : Environment)
    (paths : gmap string (gmap string ExportedOperation)) :
  forEach (routes environment) (exportRoute environment) ∅ = Return paths ->
  (forall route,
      In route (routes environment) ->
      (forall acc, exists pathItem operation,
          exportRoute environment route acc
          = Return (<[exportEndpoint (endpoint route) := pathItem]> acc) /\
          pathItem !! method route = Some operation /\
          eo_parameters operation
          = match parameterNames (endpoint route) with
            | [] => None
            | names => Some (List.map pathParameter names)
            end) /\
      (exists operation emitted,
          operationAt paths (exportEndpoint (endpoint route)) (method route)
          = Some operation /\
          In emitted (routes environment) /\
          exportEndpoint (endpoint emitted) = exportEndpoint (endpoint route) /\
          method emitted = method route /\
          eo_parameters operation
          = match parameterNames (endpoint emitted) with
            | [] => None
            | names => Some (List.map pathParameter names)
            end)) /\
  parameterNames "users/:id/orders/:orderId" = ["id"; "orderId"] /\
  parameterNames "users" = [].
Proof.
  intros E. split; [| split; reflexivity].
  intros route Hin. split.
  - intros acc.
    destruct (exported_paths_responses _ _ _ _ E route Hin) as [exported Er].
    eexists _, _. split; [apply exportRoute_Return; exact Er |].
    split; [apply lookup_insert_eq |]. cbn [eo_parameters].
    apply exportParameters_names.
  - rewrite (exported_paths_operationAt _ _ _ _ E).
    destruct (List.find _ (rev (routes environment))) as [emitted|] eqn:F.
    + apply List.find_some in F as [Hem Hw]. apply in_rev in Hem.
      destruct (exported_paths_responses _ _ _ _ E emitted Hem) as [exported Er].
      rewrite Er. eexists. exists emitted. split; [reflexivity |].
      unfold writesAt in Hw. apply andb_prop in Hw as [Hk Hm].
      apply String.eqb_eq in Hk, Hm.
      repeat split; [exact Hem | exact Hk | exact Hm |].
      cbn [eo_parameters]. apply exportParameters_names.
    + pose proof (List.find_none _ _ F route (proj1 (in_rev _ _) Hin)) as N.
      unfold writesAt in N. now rewrite !String.eqb_refl in N.
Qed.

Lemma export_path_parameters_witness :
  let route := Demo.route "users/:id/orders/:orderId" [] in
  let paths :=
    <["/users/{id}/orders/{orderId}" :=
        <["get" := {| eo_description := "";
                      eo_responses := ∅;
                      eo_parameters :=
                        Some [pathParameter "id"; pathParameter "orderId"] |}]> ∅]> ∅ in
  exists operation emitted,
    operationAt paths "/users/{id}/orders/{orderId}" "get" = Some operation /\
    In emitted [route] /\
    exportEndpoint (endpoint emitted) = "/users/{id}/orders/{orderId}" /\
    method emitted = "get" /\
    eo_parameters operation
    = match parameterNames (endpoint emitted) with
      | [] => None
      | names => Some (List.map pathParameter names)
      end.
Proof.
  cbv zeta.
  refine (proj2 (proj1 (@export_path_parameters Demo.externals
                          (Demo.environment
                             [Demo.route "users/:id/orders/:orderId" []])
                          _ _)
                   (Demo.route "users/:id/orders/:orderId" []) _)).
  - reflexivity.
  - now left.
Defined.

(** C7 as stated fails on an endpoint that repeats a parameter name: the
    name is entered once per occurrence. *)
Lemma repeated_parameter_is_entered_twice :
  exportParameters "users/:id/friends/:id"
  = Some [pathParameter "id"; pathParameter "id"].
Proof. reflexivity. Qed.

(** ** Headers of an imported response *)

(** C8.  The first header built by [buildResponseHeaders] is Content-Type;
    its value is application/json when the content-type list is absent,
    empty or contains application/json, and the first entry of the list
    otherwise.  The list application/xml, application/json gives
    application/json, and the list application/xml gives application/xml. *)
Theorem content_type_default_and_override (contentTypes : option (list string))
    (responseHeaders : option (list string)) :
  exists v rest,
    buildResponseHeaders contentTypes responseHeaders
    = {| key := "Content-Type"; value := v |} :: rest /\
    (contentTypes = None \/ contentTypes = Some [] \/
     (exists types, contentTypes = Some types /\ In "application/json" types) ->
     v = "application/json") /\
    (forall first others,
        contentTypes = Some (first :: others) ->
        ~ In "application/json" (first :: others) ->
        v = first) /\
    (contentTypes = Some ["application/xml"; "application/json"] ->
     v = "application/json") /\
    (contentTypes = Some ["application/xml"] -> v = "application/xml").
Proof.
  assert (G : exists v rest,
    buildResponseHeaders contentTypes responseHeaders
    = {| key := "Content-Type"; value := v |} :: rest /\
    v = match contentTypes with
        | Some (first :: others) =>
            if Str.includes "application/json" (first :: others)
            then "application/json" else first
        | _ => "application/json"
        end).
  { unfold buildResponseHeaders, buildHeader.
    destruct contentTypes as [[|first others]|];
      try (destruct (Str.includes "application/json" (first :: others)));
      destruct responseHeaders; cbn [negb key]; eexists _, _; split; reflexivity. }
  destruct G as (v & rest & E & Hv). exists v, rest. split; [exact E |]. subst v.
  split; [| split; [| split]].
  - intros [-> | [-> | (types & -> & Hin)]]; [reflexivity | reflexivity |].
    destruct types as [|first others]; [destruct Hin |].
    apply includes_In in Hin. now rewrite Hin.
  - intros first others -> Hout.
    destruct (Str.includes "application/json" (first :: others)) eqn:I; [| reflexivity].
    apply includes_In in I. contradiction.
  - now intros ->.
  - now intros ->.
Qed.

Lemma content_type_default_and_override_witness :
  exists v rest,
    buildResponseHeaders (Some ["application/xml"]) (Some ["X-Rate-Limit"])
    = {| key := "Content-Type"; value := v |} :: rest /\
    v = "application/xml".
Proof.
  destruct (content_type_default_and_override (Some ["application/xml"])
              (Some ["X-Rate-Limit"])) as (v & rest & E & _ & _ & _ & Hxml).
  exists v, rest. split; [exact E | exact (Hxml eq_refl)].
Defined.

(** ** Headers of an exported response *)




(** ** Port and prefix of an imported environment *)




(** With a first server entry that has a URL, the prefix is the path of
    the URL, variables replaced by their defaults, minus its leading
    slash. *)
Lemma openapi_server_prefix `{SchemasBuilderService} `{Externals}
    (parsedAPI : ParsedAPI) (server0 : ServerObject) (others : list ServerObject)
    (replaced path : string) (newRoutes : list Route) :
  servers parsedAPI = Some (server0 :: others) ->
  server_url server0 <> "" ->
  parametersReplace (server_url server0) SERVER_VARIABLES (server_variables server0)
  = Return replaced ->
  urlParse_path replaced = Some path ->
  createRoutes parsedAPI OPENAPI_V3 = Return newRoutes ->
  exists environment,
    convertFromOpenAPIV3 parsedAPI = Return environment /\
    endpointPrefix environment = Some (RemoveLeadingSlash path).
Proof.
  intros Hs Hurl Hr Hp E. unfold convertFromOpenAPIV3. rewrite Hs.
  destruct (server_url server0) as [|c url] eqn:U; [now elim Hurl |].
  rewrite Hr. cbn [obind]. rewrite Hp. cbn [obind]. rewrite E. cbn [obind].
  eexists. split; reflexivity.
Qed.

(** C6, on the failing input.  For an OpenAPI 3 document without a first
    server entry whose routes are created, the converted environment holds
    [undefined] as endpoint prefix, whatever the factory provides. *)
Theorem openapi_without_server_loses_prefix `{SchemasBuilderService} `{Externals}
    (parsedAPI : ParsedAPI) (newRoutes : list Route) :
  servers parsedAPI = None \/ servers parsedAPI = Some [] ->
  createRoutes parsedAPI OPENAPI_V3 = Return newRoutes ->
  exists environment,
    convertFromOpenAPIV3 parsedAPI = Return environment /\
    endpointPrefix environment = None.
Proof.
  intros Hs E. unfold convertFromOpenAPIV3.
  destruct Hs as [-> | ->]; cbn [obind]; rewrite E; cbn [obind];
    eexists; split; reflexivity.
Qed.

Lemma openapi_without_server_loses_prefix_witness :
  exists environment,
    @convertFromOpenAPIV3 Demo.builder Demo.externals
      (Demo.document None (Some "3.0.1") None None Demo.pets)
    = Return environment /\
    endpointPrefix environment = None /\
    endpointPrefix (@buildEnvironment Demo.builder) = Some "".
Proof.
  destruct (@openapi_without_server_loses_prefix Demo.builder Demo.externals
              (Demo.document None (Some "3.0.1") None None Demo.pets)
              [ {| method := "get"; endpoint := "pets/:id"; documentation := "";
                   responses :=
                     [ {| statusCode := 200; label := "a pet"; body := "";
                          rr_headers :=
                            [ {| key := "Content-Type";
                                 value := "application/json" |} ] |} ] |} ]
              (or_introl eq_refl) eq_refl) as (environment & E & P).
  exists environment. split; [exact E | split; [exact P | reflexivity]].
Defined.

(** ** The entry points *)

(** C4.  Neither entry point lets an exception through: [import] and
    [export] return normally in every world, whatever the collaborators
    return or throw.  For a document with neither a [swagger] field nor an
    [openapi] field that starts with 3., [import] returns [undefined] and
    adds exactly one toast, a warning.  When the dereferencer or the
    conversion throws, [import] returns [undefined] and adds one error toast
    and one error line to the log, both with the message of the exception;
    when building the exported paths throws, [export] does the same.  When
    nothing throws, [import] returns the converted environment and [export]
    the serialized document, without any toast. *)
Theorem exception_containment `{SchemasBuilderService} `{Externals} :
  (forall filePath w, exists result w', import filePath w = (Return result, w')) /\
  (forall environment w, exists result w', export environment w = (Return result, w')) /\
  (forall filePath parsedAPI w,
      dereference filePath = Return parsedAPI ->
      swagger parsedAPI = None ->
      (forall v, openapi parsedAPI = Some v -> Str.startsWith "3." v = false) ->
      import filePath w
      = (Return None,
         {| toasts := toasts w ++ [(toast_warning, IMPORT_WRONG_VERSION)];
            logs := logs w ++
                    [(log_info, "Starting OpenAPI file '" +:+ filePath +:+ "' import")] |})) /\
  (forall filePath w e,
      dereference filePath = Throw e \/
      (exists parsedAPI,
          dereference filePath = Return parsedAPI /\
          (isSwagger parsedAPI = true /\ convertFromSwagger parsedAPI = Throw e \/
           isSwagger parsedAPI = false /\ isOpenAPIV3 parsedAPI = true /\
           convertFromOpenAPIV3 parsedAPI = Throw e)) ->
      import filePath w
      = (Return None,
         {| toasts := toasts w ++
                      [(toast_error, IMPORT_ERROR +:+ ": " +:+ message e)];
            logs := (logs w ++
                     [(log_info, "Starting OpenAPI file '" +:+ filePath +:+ "' import")])
                    ++ [(log_error,
                         "Error while importing OpenAPI file: " +:+ message e)] |})) /\
  (forall filePath parsedAPI environment w,
      dereference filePath = Return parsedAPI ->
      isSwagger parsedAPI = true /\
      convertFromSwagger parsedAPI = Return environment \/
      isSwagger parsedAPI = false /\ isOpenAPIV3 parsedAPI = true /\
      convertFromOpenAPIV3 parsedAPI = Return environment ->
      import filePath w
      = (Return (Some environment),
         {| toasts := toasts w;
            logs := logs w ++
                    [(log_info, "Starting OpenAPI file '" +:+ filePath +:+ "' import")] |})) /\
  (forall environment paths w,
      forEach (routes environment) (exportRoute environment) ∅ = Return paths ->
      exists w',
        export environment w
        = (Return (Some (JSON_stringify (exportedDocument environment paths))), w') /\
        toasts w' = toasts w) /\
  (forall environment w e,
      forEach (routes environment) (exportRoute environment) ∅ = Throw e ->
      export environment w
      = (Return None,
         {| toasts := toasts w ++
                      [(toast_error, EXPORT_ERROR +:+ ": " +:+ message e)];
            logs := (logs w ++
                     [(log_info, "Starting environment " +:+ uuid environment
                                   +:+ " export to OpenAPI file")])
                    ++ [(log_error,
                         "Error while exporting OpenAPI file: " +:+ message e)] |})).
Proof.
  split; [| split; [| split; [| split; [| split; [| split]]]]].
  - intros filePath w.
    unfold import. run_M.
    destruct (dereference filePath) as [parsedAPI|e]; [| eauto].
    destruct (isSwagger parsedAPI).
    + destruct (convertFromSwagger parsedAPI); eauto.
    + destruct (isOpenAPIV3 parsedAPI); [| eauto].
      destruct (convertFromOpenAPIV3 parsedAPI); eauto.
  - intros environment w.
    unfold export, convertToOpenAPIV3. run_M.
    destruct (forEach (routes environment) (exportRoute environment) ∅) as [paths|e];
      [| eauto].
    destruct (validate _); eauto.
  - intros filePath parsedAPI w E Hs Ho.
    unfold import. run_M.
    rewrite E. unfold isSwagger, isOpenAPIV3. rewrite Hs.
    destruct (openapi parsedAPI) as [v|]; [rewrite (Ho v eq_refl) |]; reflexivity.
  - intros filePath w e Hthrow.
    unfold import. run_M.
    destruct Hthrow as [E | (parsedAPI & E & [[S C] | (S & O & C)])];
      rewrite E; [reflexivity | |]; rewrite S; [| rewrite O]; rewrite C; reflexivity.
  - intros filePath parsedAPI environment w E [[S C] | (S & O & C)];
      unfold import; run_M; rewrite E, S; [| rewrite O]; rewrite C; reflexivity.
  - intros environment paths w E.
    destruct (export_Return environment paths w E) as (validation & Ex & _).
    eexists. split; [exact Ex | reflexivity].
  - intros environment w e E.
    unfold export, convertToOpenAPIV3. run_M. rewrite E. reflexivity.
Qed.

Lemma exception_containment_witness :
  @import Demo.builder Demo.externals "raml.json" Demo.world
  = (Return None,
     {| toasts := [(toast_warning, "OpenAPI version not supported")];
        logs := [(log_info, "Starting OpenAPI file 'raml.json' import")] |}) /\
  @import Demo.builder Demo.externals "broken.json" Demo.world
  = (Return None,
     {| toasts :=
          [(toast_error,
            "Error while importing the file: Cannot convert undefined or null to object")];
        logs :=
          [(log_info, "Starting OpenAPI file 'broken.json' import");
           (log_error,
            "Error while importing OpenAPI file: Cannot convert undefined or null to object")] |}) /\
  @export Demo.failing
    (Demo.environment
       [ Demo.route "pets"
           [ {| statusCode := 200; label := ""; body := ""; rr_headers := [] |} ] ])
    Demo.world
  = (Return None,
     {| toasts :=
          [(toast_error,
            "Error while exporting the environment: Cannot read property 'find' of undefined")];
        logs :=
          [(log_info, "Starting environment e1 export to OpenAPI file");
           (log_error,
            "Error while exporting OpenAPI file: Cannot read property 'find' of undefined")] |}).
Proof.
  split; [| split].
  - exact (proj1 (proj2 (proj2 (@exception_containment Demo.builder Demo.externals)))
             "raml.json" (Demo.document None None None None Demo.pets) Demo.world
             eq_refl eq_refl
             (fun v (E : None = Some v) =>
                match E in (_ = o) return (match o with
                                           | Some _ => Str.startsWith "3." v = false
                                           | None => True
                                           end) with
                | eq_refl => I
                end)).
  - exact (proj1 (proj2 (proj2 (proj2 (@exception_containment Demo.builder Demo.externals))))
             "broken.json" Demo.world
             (TypeError "Cannot convert undefined or null to object")
             (or_intror
                (ex_intro _
                   (Demo.document None (Some "3.0.1") None None
                      [ ("/pets", [ ("get", {| op_summary := None;
                                               op_description := None;
                                               op_produces := None;
                                               op_responses := None |}) ]) ])
                   (conj eq_refl (or_intror (conj eq_refl (conj eq_refl eq_refl))))))).
  - exact (proj2 (proj2 (proj2 (proj2 (proj2 (proj2
             (@exception_containment Demo.builder Demo.failing))))))
             (Demo.environment
                [ Demo.route "pets"
                    [ {| statusCode := 200; label := ""; body := "";
                         rr_headers := [] |} ] ])
             Demo.world
             (TypeError "Cannot read property 'find' of undefined")
             eq_refl).
Defined.

Lemma non_empty_responses_witness :
  (exists route routeResponse,
      @createRoute Demo.builder Demo.externals OPENAPI_V3 "/pets" "get"
        {| op_summary := None; op_description := None; op_produces := None;
           op_responses := Some [ ("2XX", Demo.response "any success");
                                  ("default", Demo.response "error") ] |}
      = Return route /\
      responses route = [routeResponse] /\
      rr_headers routeResponse
      = [ {| key := "Content-Type"; value := "application/json" |} ]) /\
  (exists environment w',
      @import Demo.builder Demo.externals "swagger.json" Demo.world
      = (Return (Some environment), w') /\
      forall route, In route (routes environment) -> responses route <> []).
Proof.
  split.
  - apply (proj1 (@non_empty_responses Demo.builder Demo.externals)).
    intros responseStatus declaredResponse n Hin [P Hn].
    simpl in Hin. destruct Hin as [[= <- <-] | [[= <- <-] | []]].
    + injection P as <-. simpl in Hn. intuition discriminate.
    + discriminate P.
  - eexists _, _. split; [reflexivity |].
    intros route Hin.
    eapply (proj2 (@non_empty_responses Demo.builder Demo.externals)
              "swagger.json" Demo.world); [reflexivity | exact Hin].
Defined.

(** * Further properties of the service *)

(** ** Server variables *)

Lemma replace_segments_defaults (variables : gmap string ServerVariableObject)
    (l : list segment) :
  (forall name, In name (matched_groups l) -> is_Some (variables !! name)) ->
  replace_segments
    (fun _ replaceValue =>
       match variables !! replaceValue with
       | Some variable => Return (sv_default variable)
       | None =>
           if inherited replaceValue then Return "undefined"
           else Throw (TypeError "Cannot read property 'default' of undefined")
       end) l
  = Return (fold_right (fun seg rest =>
                          match seg with
                          | Unmatched c => String c rest
                          | Matched _ name => defaultOf variables name +:+ rest
                          end) "" l).
Proof.
  induction l as [|[c|text name] l IH]; intros Hdecl; [reflexivity | |].
  - cbn [replace_segments fold_right]. rewrite IH by exact Hdecl. reflexivity.
  - cbn [replace_segments fold_right]. unfold defaultOf.
    destruct (Hdecl name) as [variable Hv]; [now left |]. rewrite Hv. cbn [obind].
    rewrite IH; [reflexivity |]. intros n Hn. apply Hdecl. now right.
Qed.

Lemma replace_segments_missing (callback : string -> string -> outcome string)
    (l : list segment) (name : string) :
  In name (matched_groups l) ->
  (forall text, exists e, callback text name = Throw e /\ error_name e = "TypeError") ->
  (forall text group1 e, callback text group1 = Throw e -> error_name e = "TypeError") ->
  exists e, replace_segments callback l = Throw e /\ error_name e = "TypeError".
Proof.
  intros Hin Hname Hall. induction l as [|[c|text group1] l IH]; [destruct Hin | |].
  - cbn [replace_segments]. destruct (IH Hin) as (e & -> & He). now exists e.
  - cbn [replace_segments].
    destruct (callback text group1) as [r|e] eqn:Ec.
    + destruct Hin as [-> | Hin].
      * destruct (Hname text) as (e & Ee & _). congruence.
      * cbn [obind]. destruct (IH Hin) as (e & -> & He). now exists e.
    + exists e. split; [reflexivity | exact (Hall _ _ _ Ec)].
Qed.

(** X1.  Server variables are replaced by their defaults: when every name
    inside a placeholder of the URL is a declared variable,
    [parametersReplace] with SERVER_VARIABLES returns the URL with each
    placeholder replaced by the default of its variable. *)
Theorem server_variables_take_defaults
    (variables : gmap string ServerVariableObject) (url : string) :
  (forall name, In name (placeholders url) -> is_Some (variables !! name)) ->
  parametersReplace url SERVER_VARIABLES (Some variables)
  = Return (substituteDefaults variables url).
Proof.
  intros Hdecl. unfold parametersReplace, js_replace_fn, substituteDefaults, js_replace.
  now apply replace_segments_defaults.
Qed.

Lemma server_variables_take_defaults_witness :
  parametersReplace "http://localhost:{port}/api/{version}" SERVER_VARIABLES
    (Some Samples.variables)
  = Return "http://localhost:8080/api/v2".
Proof.
  apply (server_variables_take_defaults Samples.variables
           "http://localhost:{port}/api/{version}").
  intros name Hin. simpl in Hin.
  destruct Hin as [<- | [<- | []]]; eexists; reflexivity.
Defined.

(** X2.  A placeholder without variable makes the import fail: when the
    URL of the first server of an OpenAPI 3 document holds a placeholder
    whose name is neither a declared variable nor a property that every
    object inherits (or when the server has no variables object at all),
    [parametersReplace] throws a TypeError and [import] returns [undefined]
    with one error toast and one error line that carry its message. *)
Theorem undeclared_server_variable_fails_import
    `{SchemasBuilderService} `{Externals}
    (filePath : string) (parsedAPI : ParsedAPI) (server0 : ServerObject)
    (others : list ServerObject) (name : string) (w : World) :
  dereference filePath = Return parsedAPI ->
  isSwagger parsedAPI = false ->
  isOpenAPIV3 parsedAPI = true ->
  servers parsedAPI = Some (server0 :: others) ->
  In name (placeholders (server_url server0)) ->
  (forall variables, server_variables server0 = Some variables ->
                     variables !! name = None /\ inherited name = false) ->
  exists e,
    parametersReplace (server_url server0) SERVER_VARIABLES (server_variables server0)
    = Throw e /\
    error_name e = "TypeError" /\
    import filePath w
    = (Return None,
       {| toasts := toasts w ++
                    [(toast_error, IMPORT_ERROR +:+ ": " +:+ message e)];
          logs := (logs w ++
                   [(log_info, "Starting OpenAPI file '" +:+ filePath +:+ "' import")])
                  ++ [(log_error,
                       "Error while importing OpenAPI file: " +:+ message e)] |}).
Proof.
  intros Ed Hs Ho Hservers Hin Hmissing.
  assert (G : exists e,
    parametersReplace (server_url server0) SERVER_VARIABLES (server_variables server0)
    = Throw e /\ error_name e = "TypeError").
  { unfold parametersReplace, js_replace_fn.
    apply (replace_segments_missing _ _ name Hin).
    - intros text. destruct (server_variables server0) as [variables|] eqn:Ev.
      + destruct (Hmissing variables eq_refl) as [-> ->]. eexists. split; reflexivity.
      + eexists. split; reflexivity.
    - intros text group1 e. destruct (server_variables server0) as [variables|].
      + destruct (variables !! group1); [discriminate |].
        destruct (inherited group1); [discriminate | now intros [= <-]].
      + now intros [= <-]. }
  destruct G as (e & Ee & He). exists e. split; [exact Ee | split; [exact He |]].
  assert (Ec : convertFromOpenAPIV3 parsedAPI = Throw e).
  { unfold convertFromOpenAPIV3. rewrite Hservers.
    destruct (server_url server0) as [|c url] eqn:U; [destruct Hin |].
    now rewrite Ee. }
  unfold import. run_M. rewrite Ed, Hs, Ho, Ec. reflexivity.
Qed.

Lemma undeclared_server_variable_fails_import_witness :
  exists e,
    parametersReplace "http://localhost:{port}/api/{stage}" SERVER_VARIABLES
      (Some Samples.variables) = Throw e /\
    error_name e = "TypeError" /\
    @import Demo.builder Samples.dangling "openapi.yaml" Demo.world
    = (Return None,
       {| toasts :=
            [(toast_error, "Error while importing the file" +:+ ": " +:+ message e)];
          logs :=
            [(log_info, "Starting OpenAPI file 'openapi.yaml' import");
             (log_error, "Error while importing OpenAPI file: " +:+ message e)] |}).
Proof.
  apply (@undeclared_server_variable_fails_import Demo.builder Samples.dangling
           "openapi.yaml"
           (Demo.document None (Some "3.0.1") None (Some [Samples.undeclared])
              Demo.pets)
           Samples.undeclared [] "stage" Demo.world);
    try reflexivity.
  - right. now left.
  - intros variables [= <-]. split; reflexivity.
Defined.

(** X3.  A string without placeholder passes [parametersReplace] unchanged,
    for path parameters and for server variables alike, and whatever the
    variables are, absent included: nothing is looked up and nothing is
    thrown. *)
Theorem parametersReplace_without_placeholder (str : string)
    (parametersType : ParametersTypes)
    (parameters : option (gmap string ServerVariableObject)) :
  no_brace_param str = true ->
  parametersReplace str parametersType parameters = Return str.
Proof.
  unfold parametersReplace, js_replace_fn.
  induction str as [|c r IH]; [reflexivity |].
  rewrite no_brace_param_cons.
  destruct (brace_param_at (String c r)) eqn:E; [discriminate |].
  intros Hr. rewrite scan_unmatched by exact E.
  cbn [replace_segments]. now rewrite IH.
Qed.

Lemma parametersReplace_without_placeholder_witness :
  parametersReplace "https://api.example.com/v1" SERVER_VARIABLES None
  = Return "https://api.example.com/v1".
Proof.
  apply (parametersReplace_without_placeholder "https://api.example.com/v1"
           SERVER_VARIABLES None).
  reflexivity.
Defined.

(** ** Endpoints after an import *)

Lemma brace_param_at_cases (s : string) :
  brace_param_at s = None \/
  exists c name r,
    s = String "{" (String c name +:+ String "}" r) /\
    Str.all Str.isWord (String c name) = true /\
    brace_param_at s = Some (String "{" (String c name +:+ "}"), String c name).
Proof.
  destruct s as [|a s]; [now left |].
  destruct (Ascii.eqb_spec a "{") as [-> | Hne];
    [| left; now apply brace_param_at_other].
  unfold brace_param_at.
  destruct (Str.takeWhile Str.isWord s) as [|c name] eqn:T; [now left |].
  destruct (Str.dropWhile Str.isWord s) as [|d r] eqn:D; [now left |].
  destruct (Ascii.eqb_spec d "}") as [-> | Hd].
  - right. exists c, name, r. split; [| split; [| reflexivity]].
    + rewrite <- T, <- D. now rewrite take_drop_while.
    + rewrite <- T. apply all_takeWhile.
  - left. destruct d as [[] [] [] [] [] [] [] []]; try reflexivity. now elim Hd.
Qed.

Lemma braceToColon_run (w t : string) :
  Str.all Str.isWord w = true ->
  braceToColon (w +:+ t) = w +:+ braceToColon t.
Proof.
  induction w as [|c w IH]; simpl; intros Hw; [reflexivity |].
  apply andb_prop in Hw as [Hc Hw].
  rewrite braceToColon_skip.
  - now rewrite IH.
  - apply brace_param_at_other. intros ->. discriminate.
Qed.

Lemma braceToColon_stops (t : string) :
  stops Str.isWord t ->
  stops Str.isWord (braceToColon t) /\
  ((exists u, braceToColon t = String "}" u) -> exists u, t = String "}" u).
Proof.
  intros Ht. destruct (brace_param_at_cases t) as [E | (c & name & r & -> & Hw & E)].
  - destruct t as [|d t]; [split; [exact I | intros [u Hu]; discriminate] |].
    rewrite braceToColon_skip by exact E. split; [exact Ht |].
    intros [u Hu]. injection Hu as -> _. now exists t.
  - rewrite braceToColon_param by exact Hw. split; [reflexivity |].
    intros [u Hu]. discriminate.
Qed.

Lemma brace_param_at_braceToColon (r : string) :
  brace_param_at (String "{" r) = None ->
  brace_param_at (String "{" (braceToColon r)) = None.
Proof.
  rewrite <- (take_drop_while Str.isWord r) at 1 2.
  set (w := Str.takeWhile Str.isWord r). set (t := Str.dropWhile Str.isWord r).
  assert (Hw : Str.all Str.isWord w = true) by apply all_takeWhile.
  assert (Ht : stops Str.isWord t) by apply dropWhile_stops.
  rewrite braceToColon_run by exact Hw.
  destruct (braceToColon_stops t Ht) as [Hs Hclose].
  rewrite !brace_param_at_run by assumption.
  destruct w as [|c name]; [reflexivity |].
  destruct (braceToColon t) as [|d u] eqn:E; [reflexivity |].
  destruct (Ascii.eqb_spec d "}") as [-> | Hne].
  - destruct Hclose as [u' ->]; [now exists u |]. discriminate.
  - intros _. destruct d as [[] [] [] [] [] [] [] []]; try reflexivity. now elim Hne.
Qed.

(** The import direction leaves no placeholder behind. *)
Lemma no_brace_param_braceToColon (s : string) :
  no_brace_param (braceToColon s) = true.
Proof.
  remember (String.length s) as n eqn:Hn. revert s Hn.
  induction n as [n IH] using lt_wf_ind. intros s Hn.
  destruct s as [|a r]; [reflexivity |].
  destruct (brace_param_at_cases (String a r)) as [E | (c & name & r' & Heq & Hw & E)].
  - rewrite braceToColon_skip by exact E. rewrite no_brace_param_cons.
    assert (Hb : brace_param_at (String a (braceToColon r)) = None).
    { destruct (Ascii.eqb_spec a "{") as [-> | Hne].
      - now apply brace_param_at_braceToColon.
      - now apply brace_param_at_other. }
    rewrite Hb. apply (IH (String.length r)); [subst n; simpl; lia | reflexivity].
  - rewrite Heq in *. rewrite braceToColon_param by exact Hw.
    apply (no_brace_param_app (String ":" (String c name))).
    + change (Str.all (fun c => negb (Ascii.eqb c "{")) (String c name) = true).
      now apply word_no_open.
    + apply (IH (String.length r')); [| reflexivity].
      subst n. simpl. rewrite length_append. simpl. lia.
Qed.

Lemma no_brace_param_RemoveLeadingSlash (s : string) :
  no_brace_param s = true -> no_brace_param (RemoveLeadingSlash s) = true.
Proof.
  intros Hs. destruct s as [|c r]; [reflexivity |].
  destruct (Ascii.eqb_spec c "/") as [-> | Hne].
  - exact (no_brace_param_drop "/" r Hs).
  - assert (E : RemoveLeadingSlash (String c r) = String c r)
      by (destruct c as [[] [] [] [] [] [] [] []]; try reflexivity; now elim Hne).
    now rewrite E.
Qed.

Lemma import_of_export (route_endpoint : string) :
  no_brace_param route_endpoint = true ->
  RemoveLeadingSlash (braceToColon (exportEndpoint route_endpoint)) = route_endpoint.
Proof.
  intros Hs. rewrite exportEndpoint_replace.
  change ("/" +:+ colonToBrace route_endpoint)
    with (String "/" (colonToBrace route_endpoint)).
  rewrite braceToColon_skip by reflexivity.
  cbn [RemoveLeadingSlash]. now apply braceToColon_colonToBrace.
Qed.

(** X4.  Imported endpoints are stable.  The endpoint of a route built by
    the import holds no [{name}] placeholder.  Hence the path key that the
    export writes for it leads back to it: translating the key as the
    import does returns the endpoint, and a route built from the key, for
    any version, method key and operation, has this endpoint again.  (Only
    the endpoint is meant: the responses of such a route are those of the
    operation it is built from.) *)
Theorem imported_endpoint_is_stable `{SchemasBuilderService} `{Externals}
    (version : SpecificationVersions) (routePath routeMethod : string)
    (parsedRoute : OperationObject) (route : Route) :
  createRoute version routePath routeMethod parsedRoute = Return route ->
  no_brace_param (endpoint route) = true /\
  (exists replaced,
      parametersReplace (exportEndpoint (endpoint route)) PATH_PARAMETERS None
      = Return replaced /\
      RemoveLeadingSlash replaced = endpoint route) /\
  (forall version' routeMethod' parsedRoute' route',
      createRoute version' (exportEndpoint (endpoint route)) routeMethod' parsedRoute'
      = Return route' ->
      endpoint route' = endpoint route).
Proof.
  intros E. apply createRoute_inv in E as (_ & _ & _ & -> & _).
  assert (Hs : no_brace_param (RemoveLeadingSlash (braceToColon routePath)) = true)
    by apply no_brace_param_RemoveLeadingSlash, no_brace_param_braceToColon.
  split; [exact Hs | split].
  - eexists. split; [apply parametersReplace_path |]. now apply import_of_export.
  - intros version' routeMethod' parsedRoute' route' E'.
    apply createRoute_inv in E' as (_ & _ & _ & -> & _). now apply import_of_export.
Qed.

Lemma imported_endpoint_is_stable_witness :
  exists route,
    @createRoute Demo.builder Demo.externals OPENAPI_V3 "/pets/{id}/{name}" "get"
      (Demo.operation [ ("200", Demo.response "a pet") ]) = Return route /\
    endpoint route = "pets/:id/:name" /\
    exportEndpoint (endpoint route) = "/pets/{id}/{name}" /\
    no_brace_param (endpoint route) = true /\
    forall route',
      @createRoute Demo.builder Demo.externals SWAGGER
        (exportEndpoint (endpoint route)) "put" (Demo.operation []) = Return route' ->
      endpoint route' = endpoint route.
Proof.
  eexists. split; [reflexivity |]. split; [reflexivity |]. split; [reflexivity |].
  destruct (@imported_endpoint_is_stable Demo.builder Demo.externals OPENAPI_V3
              "/pets/{id}/{name}" "get"
              (Demo.operation [ ("200", Demo.response "a pet") ]) _ eq_refl)
    as (Hs & _ & Hback).
  split; [exact Hs |].
  intros route'. exact (Hback SWAGGER "put" (Demo.operation []) route').
Defined.

(** ** Path keys after an export *)

Lemma no_colon_param_cons (c : ascii) (r : string) :
  no_colon_param (String c r)
  = match colon_param_at (String c r) with
    | Some _ => false
    | None => no_colon_param r
    end.
Proof. reflexivity. Qed.

Lemma colon_param_at_other (c : ascii) (r : string) :
  c <> ":"%char -> colon_param_at (String c r) = None.
Proof.
  intros Hne. simpl.
  destruct c as [[] [] [] [] [] [] [] []]; try reflexivity. now elim Hne.
Qed.

Lemma takeWhile_stops (f : ascii -> bool) (s : string) :
  stops f s <-> Str.takeWhile f s = "".
Proof.
  destruct s as [|c r]; simpl; [easy |].
  destruct (f c); split; try easy; discriminate.
Qed.

Lemma colon_param_at_colonToBrace (r : string) :
  colon_param_at (String ":" r) = None ->
  colon_param_at (String ":" (colonToBrace r)) = None.
Proof.
  unfold colon_param_at. intros E.
  assert (Hr : stops Str.isWord r).
  { apply takeWhile_stops. destruct (Str.takeWhile Str.isWord r); [reflexivity | discriminate]. }
  destruct (colonToBrace_stops r Hr) as [Hs _].
  apply takeWhile_stops in Hs. now rewrite Hs.
Qed.

Lemma no_colon_param_app (p q : string) :
  Str.all noColon p = true ->
  no_colon_param q = true -> no_colon_param (p +:+ q) = true.
Proof.
  induction p as [|c p IH]; [easy |]. intros Hp Hq.
  cbn [Str.all] in Hp. apply andb_prop in Hp as [Hc Hp].
  change (String c p +:+ q) with (String c (p +:+ q)).
  rewrite no_colon_param_cons, colon_param_at_other; [now apply IH |].
  intros ->. discriminate.
Qed.

Lemma word_noColon (s : string) :
  Str.all Str.isWord s = true -> Str.all noColon s = true.
Proof.
  induction s as [|c s IH]; [easy |]. cbn [Str.all]. intros H.
  apply andb_prop in H as [Hc Hs]. rewrite (IH Hs), andb_true_r.
  destruct (Ascii.eqb_spec c ":") as [-> | Hne]; [discriminate |].
  unfold noColon. now apply Bool.negb_true_iff, Ascii.eqb_neq.
Qed.

Lemma all_app (f : ascii -> bool) (a b : string) :
  Str.all f (a +:+ b) = Str.all f a && Str.all f b.
Proof.
  induction a as [|c a IH]; [reflexivity |]. simpl. rewrite IH.
  now rewrite andb_assoc.
Qed.

(** The export direction leaves no [:name] parameter behind. *)
Lemma no_colon_param_colonToBrace (s : string) :
  no_colon_param (colonToBrace s) = true.
Proof.
  remember (String.length s) as n eqn:Hn. revert s Hn.
  induction n as [n IH] using lt_wf_ind. intros s Hn.
  destruct s as [|a r]; [reflexivity |].
  destruct (colon_param_at_cases (String a r))
    as [E | (c & name & r' & Heq & Hw & Hr & E)].
  - rewrite colonToBrace_skip by exact E. rewrite no_colon_param_cons.
    assert (Hc : colon_param_at (String a (colonToBrace r)) = None).
    { destruct (Ascii.eqb_spec a ":") as [-> | Hne].
      - now apply colon_param_at_colonToBrace.
      - now apply colon_param_at_other. }
    rewrite Hc. apply (IH (String.length r)); [subst n; simpl; lia | reflexivity].
  - rewrite Heq in *. rewrite colonToBrace_param by exact E.
    change (String "{" (String c name +:+ String "}" (colonToBrace r')))
      with (String "{" (String c name) +:+ String "}" (colonToBrace r')).
    apply no_colon_param_app.
    + change (Str.all noColon (String c name) = true). now apply word_noColon.
    + change (String "}" (colonToBrace r')) with ("}" +:+ colonToBrace r').
      apply no_colon_param_app; [reflexivity |].
      apply (IH (String.length r')); [| reflexivity].
      subst n. simpl. rewrite length_append. simpl. lia.
Qed.

Lemma brace_param_at_block (c : ascii) (name r : string) :
  Str.all Str.isWord (String c name) = true ->
  brace_param_at (String "{" ((String c name +:+ "}") +:+ r))
  = Some (String "{" (String c name +:+ "}"), String c name).
Proof.
  intros Hw.
  assert (Hsplit : (String c name +:+ "}") +:+ r = String c name +:+ String "}" r)
    by (rewrite append_assoc; reflexivity).
  rewrite Hsplit. now rewrite brace_param_at_run.
Qed.

(** Without placeholder of its own, the placeholders of the exported
    endpoint are the names of its parameters. *)
Lemma placeholders_colonToBrace (s : string) :
  no_brace_param s = true ->
  placeholders (colonToBrace s) = parameterNames s.
Proof.
  unfold placeholders, parameterNames.
  remember (String.length s) as n eqn:Hn. revert s Hn.
  induction n as [n IH] using lt_wf_ind. intros s Hn Hs.
  destruct s as [|a r]; [reflexivity |].
  destruct (colon_param_at_cases (String a r))
    as [E | (c & name & r' & Heq & Hw & Hr & E)].
  - rewrite colonToBrace_skip by exact E.
    rewrite no_brace_param_cons in Hs.
    destruct (brace_param_at (String a r)) eqn:Hb; [discriminate |].
    assert (Hb' : brace_param_at (String a (colonToBrace r)) = None).
    { destruct (Ascii.eqb_spec a "{") as [-> | Hne].
      - now apply brace_param_at_colonToBrace.
      - now apply brace_param_at_other. }
    rewrite (scan_unmatched _ _ _ Hb'), (scan_unmatched _ _ _ E).
    cbn [matched_groups matched_texts flat_map app].
    apply (IH (String.length r)); [subst n; simpl; lia | reflexivity | exact Hs].
  - rewrite Heq in *. rewrite colonToBrace_param by exact E.
    assert (Hsplit : String c name +:+ String "}" (colonToBrace r')
                     = (String c name +:+ "}") +:+ colonToBrace r')
      by (rewrite append_assoc; reflexivity).
    rewrite Hsplit.
    rewrite (scan_matched _ _ _ _ _ (brace_param_at_block c name _ Hw)).
    rewrite (scan_matched _ _ _ _ _ E).
    cbn [matched_groups matched_texts flat_map app List.map slice1]. f_equal.
    apply (IH (String.length r')).
    + subst n. simpl. rewrite length_append. simpl. lia.
    + reflexivity.
    + apply (no_brace_param_drop (String ":" (String c name))). exact Hs.
Qed.

(** X5.  The exported path key is a clean template: it holds no [:name]
    parameter any more, and when the endpoint has no placeholder of its own
    the names inside the placeholders of the path key are, in order, the
    names of the parameters found in the endpoint, which are the names that
    the operation declares. *)
Theorem exported_path_key_declares_its_placeholders (route_endpoint : string) :
  no_colon_param (exportEndpoint route_endpoint) = true /\
  (no_brace_param route_endpoint = true ->
   placeholders (exportEndpoint route_endpoint) = parameterNames route_endpoint /\
   exportParameters route_endpoint
   = match placeholders (exportEndpoint route_endpoint) with
     | [] => None
     | names => Some (List.map pathParameter names)
     end).
Proof.
  rewrite exportEndpoint_replace.
  change ("/" +:+ colonToBrace route_endpoint)
    with (String "/" (colonToBrace route_endpoint)).
  split.
  - rewrite no_colon_param_cons. cbn [colon_param_at].
    apply no_colon_param_colonToBrace.
  - intros Hs.
    assert (Hp : placeholders (String "/" (colonToBrace route_endpoint))
                 = parameterNames route_endpoint).
    { unfold placeholders. rewrite scan_unmatched by reflexivity.
      cbn [matched_groups flat_map app]. now apply placeholders_colonToBrace. }
    split; [exact Hp |]. rewrite Hp. apply exportParameters_names.
Qed.

Lemma exported_path_key_declares_its_placeholders_witness :
  no_colon_param (exportEndpoint "users/:id/orders/:orderId") = true /\
  placeholders (exportEndpoint "users/:id/orders/:orderId") = ["id"; "orderId"] /\
  exportParameters "users/:id/orders/:orderId"
  = Some [pathParameter "id"; pathParameter "orderId"].
Proof.
  destruct (exported_path_key_declares_its_placeholders "users/:id/orders/:orderId")
    as [Hclean Hnames].
  split; [exact Hclean | exact (Hnames eq_refl)].
Defined.

(** ** Routes and responses of an imported document *)

Lemma mapM_Throw {A B : Type} (f : A -> outcome B) (P : JsError -> Prop)
    (l : list A) (a : A) :
  (forall x e, f x = Throw e -> P e) ->
  In a l -> (exists e, f a = Throw e) ->
  exists e, mapM f l = Throw e /\ P e.
Proof.
  intros HP Hin [e0 E0]. induction l as [|x l IH]; [destruct Hin |].
  cbn [mapM]. destruct (f x) as [b|e] eqn:Ex.
  - destruct Hin as [-> | Hin]; [congruence |].
    destruct (IH Hin) as (e & -> & He). now exists e.
  - exists e. split; [reflexivity | exact (HP _ _ Ex)].
Qed.

Lemma Forall2_In_r {A B : Type} (R : A -> B -> Prop) (l : list A) (l' : list B) (b : B) :
  Forall2 R l l' -> In b l' -> exists a, In a l /\ R a b.
Proof.
  induction 1 as [|x y l l' Hxy _ IH]; intros Hin; [destruct Hin |].
  destruct Hin as [<- | Hin].
  - exists x. split; [now left | exact Hxy].
  - destruct (IH Hin) as (a & Ha & Hr). exists a. split; [now right | exact Hr].
Qed.

Section ImportExtras.

Context `{SchemasBuilderService} `{Externals}.

Lemma createRoutes_In parsedAPI version routes route :
  createRoutes parsedAPI version = Return routes ->
  In route routes ->
  exists routePath routeMethod parsedRoute,
    In (routePath, routeMethod, parsedRoute) (whitelisted parsedAPI) /\
    createRoute version routePath routeMethod parsedRoute = Return route.
Proof.
  rewrite createRoutes_mapM. intros E Hin. apply mapM_Return in E.
  destruct (Forall2_In_r _ _ _ _ E Hin) as ([[p m] op] & Hx & Hr).
  now exists p, m, op.
Qed.

Lemma import_Some_branch filePath w environment w' :
  import filePath w = (Return (Some environment), w') ->
  exists parsedAPI,
    dereference filePath = Return parsedAPI /\
    (isSwagger parsedAPI = true /\
     convertFromSwagger parsedAPI = Return environment \/
     isSwagger parsedAPI = false /\ isOpenAPIV3 parsedAPI = true /\
     convertFromOpenAPIV3 parsedAPI = Return environment).
Proof.
  unfold import. run_M.
  destruct (dereference filePath) as [parsedAPI|e]; [| discriminate].
  destruct (isSwagger parsedAPI) eqn:S.
  - destruct (convertFromSwagger parsedAPI) as [env|e] eqn:E; [| discriminate].
    intros [= <- _]. exists parsedAPI. auto.
  - destruct (isOpenAPIV3 parsedAPI) eqn:O; [| discriminate].
    destruct (convertFromOpenAPIV3 parsedAPI) as [env|e] eqn:E; [| discriminate].
    intros [= <- _]. exists parsedAPI. auto.
Qed.

Lemma import_routes filePath w environment w' :
  import filePath w = (Return (Some environment), w') ->
  exists parsedAPI version,
    dereference filePath = Return parsedAPI /\
    createRoutes parsedAPI version = Return (routes environment).
Proof.
  intros E. apply import_Some_branch in E as (parsedAPI & Ed & [[_ E] | (_ & _ & E)]).
  - exists parsedAPI, SWAGGER. split; [exact Ed | now apply convertFromSwagger_inv].
  - exists parsedAPI, OPENAPI_V3. split; [exact Ed | now apply convertFromOpenAPIV3_inv].
Qed.

End ImportExtras.

(** X6.  Routes follow the document.  The created routes are, in order, the
    routes of the operations under whitelisted method keys, taken path by
    path in the enumeration order of the paths and key by key within a
    path: there is one route per such operation, with the key as method and
    the translated path as endpoint. *)
Theorem created_routes_follow_the_document `{SchemasBuilderService} `{Externals}
    (parsedAPI : ParsedAPI) (version : SpecificationVersions)
    (routes : list Route) :
  createRoutes parsedAPI version = Return routes ->
  Forall2 (fun '(routePath, routeMethod, parsedRoute) route =>
             createRoute version routePath routeMethod parsedRoute = Return route)
    (whitelisted parsedAPI) routes /\
  List.map method routes
  = List.map (fun '(_, routeMethod, _) => routeMethod) (whitelisted parsedAPI) /\
  List.map endpoint routes
  = List.map (fun '(routePath, _, _) => RemoveLeadingSlash (braceToColon routePath))
      (whitelisted parsedAPI) /\
  List.length routes = List.length (whitelisted parsedAPI).
Proof.
  rewrite createRoutes_mapM. intros E. apply mapM_Return in E.
  split; [apply (Forall2_impl _ _ _ _ E); now intros [[p m] op] r Hr |].
  induction E as [|[[p m] op] r l rs Hr _ (IHm & IHe & IHl)]; [repeat split |].
  apply createRoute_inv in Hr as (_ & _ & Hm & He & _).
  cbn [List.map List.length]. rewrite IHm, IHe, IHl, Hm, He. repeat split.
Qed.

Lemma created_routes_follow_the_document_witness :
  let parsedAPI :=
    Demo.document None (Some "3.0.0") None None
      [ ("/pets", [ ("post", Demo.operation []);
                    ("summary", Demo.operation []);
                    ("get", Demo.operation []) ]);
        ("/owners/{id}", [ ("delete", Demo.operation []) ]) ] in
  exists routes,
    @createRoutes Demo.builder Demo.externals parsedAPI OPENAPI_V3 = Return routes /\
    List.map method routes = ["post"; "get"; "delete"] /\
    List.map endpoint routes = ["pets"; "pets"; "owners/:id"].
Proof.
  cbv zeta. eexists. split; [reflexivity |].
  destruct (@created_routes_follow_the_document Demo.builder Demo.externals
              (Demo.document None (Some "3.0.0") None None
                 [ ("/pets", [ ("post", Demo.operation []);
                               ("summary", Demo.operation []);
                               ("get", Demo.operation []) ]);
                   ("/owners/{id}", [ ("delete", Demo.operation []) ]) ])
              OPENAPI_V3 _ eq_refl) as (_ & Hm & He & _).
  split; [exact Hm | exact He].
Defined.

(** X7.  The import is all or nothing.  One operation under a whitelisted
    method key that lacks its [responses] object makes [createRoutes] throw
    the TypeError of [Object.keys], whatever the other operations are;
    [import] of a Swagger document, or of an OpenAPI 3 document without
    server, then returns [undefined] with one error toast and one error
    line, and no environment with the routes built so far. *)
Theorem missing_responses_fail_the_import `{SchemasBuilderService} `{Externals}
    (filePath : string) (parsedAPI : ParsedAPI)
    (routePath routeMethod : string)
    (pathItem : list (string * OperationObject)) (parsedRoute : OperationObject)
    (w : World) :
  In (routePath, pathItem) (paths parsedAPI) ->
  In (routeMethod, parsedRoute) pathItem ->
  In routeMethod methods ->
  op_responses parsedRoute = None ->
  let e := TypeError "Cannot convert undefined or null to object" in
  (forall version, createRoutes parsedAPI version = Throw e) /\
  (dereference filePath = Return parsedAPI ->
   isSwagger parsedAPI = true \/
   isSwagger parsedAPI = false /\ isOpenAPIV3 parsedAPI = true /\
   servers parsedAPI = None ->
   import filePath w
   = (Return None,
      {| toasts := toasts w ++
                   [(toast_error, IMPORT_ERROR +:+ ": " +:+ message e)];
         logs := (logs w ++
                  [(log_info, "Starting OpenAPI file '" +:+ filePath +:+ "' import")])
                 ++ [(log_error,
                      "Error while importing OpenAPI file: " +:+ message e)] |})).
Proof.
  intros Hp Hm Hw Hr e.
  assert (Hin : In (routePath, routeMethod, parsedRoute) (whitelisted parsedAPI)).
  { unfold whitelisted. apply in_flat_map. exists (routePath, pathItem).
    split; [exact Hp |]. apply in_flat_map. exists (routeMethod, parsedRoute).
    split; [exact Hm |]. apply includes_In in Hw. rewrite Hw. now left. }
  assert (Hthrow : forall version, createRoutes parsedAPI version = Throw e).
  { intros version.
    destruct (mapM_Throw
                (fun '(p, m, op) => createRoute version p m op)
                (fun e' => e' = e)
                (whitelisted parsedAPI) (routePath, routeMethod, parsedRoute))
      as (e' & Ee & ->).
    - intros [[p m] op] e'. destruct (op_responses op) as [declared|] eqn:Ed.
      + rewrite (createRoute_Some _ _ _ _ _ Ed). discriminate.
      + rewrite (createRoute_None _ _ _ _ Ed). now intros [= <-].
    - exact Hin.
    - eexists. now apply createRoute_None.
    - now rewrite createRoutes_mapM. }
  split; [exact Hthrow |].
  intros Ed [Hs | (Hs & Ho & Hservers)]; unfold import; run_M; rewrite Ed, Hs.
  - unfold convertFromSwagger. rewrite Hthrow. reflexivity.
  - rewrite Ho. unfold convertFromOpenAPIV3. rewrite Hservers. cbn [obind].
    rewrite Hthrow. reflexivity.
Qed.

Lemma missing_responses_fail_the_import_witness :
  @import Demo.builder Demo.externals "broken.json" Demo.world
  = (Return None,
     {| toasts :=
          [(toast_error,
            "Error while importing the file: Cannot convert undefined or null to object")];
        logs :=
          [(log_info, "Starting OpenAPI file 'broken.json' import");
           (log_error,
            "Error while importing OpenAPI file: Cannot convert undefined or null to object")] |}).
Proof.
  refine (proj2 (@missing_responses_fail_the_import Demo.builder Demo.externals
                   "broken.json"
                   (Demo.document None (Some "3.0.1") None None
                      [ ("/pets", [ ("get", {| op_summary := None;
                                               op_description := None;
                                               op_produces := None;
                                               op_responses := None |}) ]) ])
                   "/pets" "get"
                   [ ("get", {| op_summary := None; op_description := None;
                                op_produces := None; op_responses := None |}) ]
                   {| op_summary := None; op_description := None;
                      op_produces := None; op_responses := None |}
                   Demo.world _ _ _ eq_refl) eq_refl _).
  - now left.
  - now left.
  - now left.
  - right. repeat split.
Defined.

Lemma buildResponseHeaders_exact (contentTypes responseHeaders : option (list string)) :
  buildResponseHeaders contentTypes responseHeaders
  = {| key := "Content-Type";
       value := match contentTypes with
                | Some ((first :: _) as types) =>
                    if Str.includes "application/json" types
                    then "application/json" else first
                | _ => "application/json"
                end |}
    :: List.map (fun header => {| key := header; value := "" |})
         (match responseHeaders with Some names => names | None => [] end).
Proof.
  unfold buildResponseHeaders, buildHeader.
  destruct contentTypes as [[|first others]|];
    try (destruct (Str.includes "application/json" (first :: others)));
    destruct responseHeaders; reflexivity.
Qed.

(** X8.  Shape of the imported responses.  In an environment returned by
    [import], every response of every route goes back to the operation of
    the document that the route is built from.  Either no declared key of
    the operation passes the status-code filter, and the response is the
    fallback response, the only one of the route; or the response comes
    from a declared response under a key that passes the filter: it
    carries the number read from the key, an empty body, the description
    as label, and as headers one Content-Type header (application/json,
    or the first declared content type when application/json is not among
    the declared ones) followed by one header with an empty value for each
    header name that the declared response declares, in declaration order
    (a declared Content-Type is not merged with the first one). *)
Theorem imported_responses_shape `{SchemasBuilderService} `{Externals}
    (filePath : string) (w w' : World) (environment : Environment)
    (route : Route) (routeResponse : RouteResponse) :
  import filePath w = (Return (Some environment), w') ->
  In route (routes environment) ->
  In routeResponse (responses route) ->
  exists parsedAPI routePath parsedRoute declared,
    dereference filePath = Return parsedAPI /\
    In (routePath, method route, parsedRoute) (whitelisted parsedAPI) /\
    op_responses parsedRoute = Some declared /\
    ((responses route = [routeResponse] /\
      routeResponse = fallbackResponse /\
      forall responseStatus declaredResponse n,
        In (responseStatus, declaredResponse) declared ->
        ~ passes responseStatus n) \/
     exists responseStatus declaredResponse,
       In (responseStatus, declaredResponse) declared /\
       passes responseStatus (statusCode routeResponse) /\
       body routeResponse = "" /\
       label routeResponse = or_else (resp_description declaredResponse) "" /\
       rr_headers routeResponse
       = {| key := "Content-Type";
            value :=
              match contentTypesOf
                      (if isSwagger parsedAPI then SWAGGER else OPENAPI_V3)
                      parsedRoute declaredResponse with
              | Some ((first :: _) as types) =>
                  if Str.includes "application/json" types
                  then "application/json" else first
              | _ => "application/json"
              end |}
         :: List.map (fun header => {| key := header; value := "" |})
              (match resp_headers declaredResponse with
               | Some names => names
               | None => []
               end)).
Proof.
  intros E Hroute Hrr.
  assert (G : exists parsedAPI,
    dereference filePath = Return parsedAPI /\
    createRoutes parsedAPI (if isSwagger parsedAPI then SWAGGER else OPENAPI_V3)
    = Return (routes environment)).
  { apply import_Some_branch in E as (parsedAPI & Ed & [[S E] | (S & _ & E)]);
      exists parsedAPI; rewrite S; (split; [exact Ed |]).
    - now apply convertFromSwagger_inv.
    - now apply convertFromOpenAPIV3_inv. }
  destruct G as (parsedAPI & Ed & Er).
  set (version := if isSwagger parsedAPI then SWAGGER else OPENAPI_V3) in *.
  destruct (createRoutes_In _ _ _ _ Er Hroute) as (p & m & op & Hw & Ec).
  apply createRoute_inv in Ec as (declared & Hd & Hm & _ & Hresp).
  exists parsedAPI, p, op, declared. rewrite Hm.
  split; [exact Ed | split; [exact Hw | split; [exact Hd |]]].
  destruct (keptResponses version op declared) as [|rr kept] eqn:K.
  - left. rewrite Hresp in Hrr |- *. destruct Hrr as [<- | []].
    split; [reflexivity | split; [reflexivity |]].
    intros k r n Hin Hn.
    assert (Hk : In (importedResponse version op n r) (keptResponses version op declared))
      by (apply keptResponses_In; now exists k, r, n).
    rewrite K in Hk. destruct Hk.
  - right. rewrite Hresp, <- K in Hrr.
    apply keptResponses_In in Hrr as (k & r & n & Hin & Hn & ->).
    exists k, r. cbn [statusCode body label rr_headers importedResponse].
    split; [exact Hin | split; [exact Hn | split; [reflexivity | split; [reflexivity |]]]].
    apply buildResponseHeaders_exact.
Qed.

Lemma imported_responses_shape_witness :
  exists environment w' route routeResponse,
    @import Demo.builder Samples.headed "api.json" Demo.world
    = (Return (Some environment), w') /\
    In route (routes environment) /\
    In routeResponse (responses route) /\
    statusCode routeResponse = 200%Z /\
    rr_headers routeResponse
    = [ {| key := "Content-Type"; value := "application/xml" |};
        {| key := "X-Rate-Limit"; value := "" |};
        {| key := "Content-Type"; value := "" |} ].
Proof.
  eexists _, _, _, _. split; [reflexivity |].
  split; [now left |]. split; [now left |]. split; [reflexivity |].
  destruct (@imported_responses_shape Demo.builder Samples.headed
              "api.json" Demo.world _ _ _ _ eq_refl
              (or_introl eq_refl) (or_introl eq_refl))
    as (parsedAPI & routePath & parsedRoute & declared & Ed & Hw & Hd & Hcase).
  injection Ed as <-.
  destruct Hw as [[= <- <-] | []].
  injection Hd as <-.
  destruct Hcase as [(_ & _ & Hnone) | (k & r & Hin & _ & _ & _ & Hh)].
  - elim (Hnone "200" Samples.limited 200%Z); [now left |].
    split; [reflexivity | now left].
  - destruct Hin as [[= <- <-] | []]. exact Hh.
Defined.

(** X9.  What the import takes from the factory.  An environment returned
    by [import] has the uuid, the https flag and the headers of the factory
    environment, and a name that is never empty: the title of the document,
    or Swagger import, respectively OpenAPI import, when the title is absent
    or empty.  An OpenAPI 3 import keeps the port of the factory; a Swagger
    import keeps the prefix of the factory when the base path is absent or
    empty, and otherwise stores the base path without its first slash. *)
Theorem imported_environment_frame `{SchemasBuilderService} `{Externals}
    (filePath : string) (w w' : World) (environment : Environment) :
  import filePath w = (Return (Some environment), w') ->
  uuid environment = uuid buildEnvironment /\
  https environment = https buildEnvironment /\
  env_headers environment = env_headers buildEnvironment /\
  name environment <> "" /\
  exists parsedAPI,
    dereference filePath = Return parsedAPI /\
    name environment
    = or_else (info_title parsedAPI)
        (if isSwagger parsedAPI then "Swagger import" else "OpenAPI import") /\
    (isSwagger parsedAPI = false -> port environment = port buildEnvironment) /\
    (isSwagger parsedAPI = true ->
     basePath parsedAPI = None \/ basePath parsedAPI = Some "" ->
     endpointPrefix environment = endpointPrefix buildEnvironment) /\
    (isSwagger parsedAPI = true ->
     forall prefix, basePath parsedAPI = Some ("/" +:+ prefix) ->
                    endpointPrefix environment = Some prefix).
Proof.
  intros E.
  assert (Hname : forall title fallback, fallback <> "" -> or_else title fallback <> "").
  { intros [[|c s]|] fallback Hf; cbn [or_else]; [exact Hf | discriminate | exact Hf]. }
  apply import_Some_branch in E as (parsedAPI & Ed & [[S E] | (S & O & E)]).
  - unfold convertFromSwagger in E.
    destruct (createRoutes parsedAPI SWAGGER) as [rs|]; cbn [obind] in E; [| discriminate].
    injection E as <-. cbn [uuid https env_headers name port endpointPrefix].
    repeat split; [now apply Hname |].
    exists parsedAPI. rewrite S. repeat split; [exact Ed | discriminate | |].
    + intros _ [-> | ->]; reflexivity.
    + intros _ prefix ->. reflexivity.
  - unfold convertFromOpenAPIV3 in E.
    match type of E with obind ?prefix _ = _ => destruct prefix as [newPrefix|] end;
      cbn [obind] in E; [| discriminate].
    destruct (createRoutes parsedAPI OPENAPI_V3) as [rs|]; cbn [obind] in E;
      [| discriminate].
    injection E as <-. cbn [uuid https env_headers name port endpointPrefix].
    repeat split; [now apply Hname |].
    exists parsedAPI. rewrite S. repeat split; [exact Ed | discriminate | discriminate].
Qed.

Lemma imported_environment_frame_witness :
  exists environment w',
    @import Demo.builder Demo.externals "openapi.json" Demo.world
    = (Return (Some environment), w') /\
    uuid environment = "e1" /\
    name environment = "Pets" /\
    port environment = 3000%Z.
Proof.
  eexists _, _. split; [reflexivity |].
  destruct (@imported_environment_frame Demo.builder Demo.externals
              "openapi.json" Demo.world _ _ eq_refl)
    as (Hu & _ & _ & _ & parsedAPI & Ed & Hn & Hp & _).
  injection Ed as <-.
  split; [exact Hu | split; [exact Hn | exact (Hp eq_refl)]].
Defined.

(** ** The exported document *)

Lemma ofZ_inj (a b : Z) : Str.ofZ a = Str.ofZ b -> a = b.
Proof.
  intros E. pose proof (mathInt_ofZ a) as Ha. rewrite E, mathInt_ofZ in Ha.
  now injection Ha.
Qed.

Lemma find_last {A : Type} (p : A -> bool) (before after : list A) (x : A) :
  p x = true -> (forall y, In y after -> p y = false) ->
  List.find p (rev (before ++ x :: after)) = Some x.
Proof.
  intros Hx Hafter. rewrite rev_app_distr. cbn [rev]. rewrite <- app_assoc.
  rewrite find_app.
  destruct (List.find p (rev after)) as [y|] eqn:F.
  - apply List.find_some in F as [Hy Py]. apply in_rev in Hy.
    rewrite (Hafter y Hy) in Py. discriminate.
  - cbn [app List.find]. now rewrite Hx.
Qed.

Section ExportExtras.

Context `{Externals}.

Lemma exportResponses_lookup (environment : Environment) (l : list RouteResponse)
    (acc exported : gmap string ExportedResponse) :
  forEach l
    (fun routeResponse responses =>
       do responseContentType <-
         GetRouteResponseContentType environment routeResponse ;;
       Return (<[Str.ofZ (statusCode routeResponse) :=
                   {| er_description := label routeResponse;
                      er_content :=
                        match responseContentType with
                        | EmptyString => ∅
                        | _ => {[ responseContentType := tt ]}
                        end;
                      er_headers := exportHeaders environment routeResponse |}]>
                 responses)) acc = Return exported ->
  (forall routeResponse, In routeResponse l ->
     exists contentType,
       GetRouteResponseContentType environment routeResponse = Return contentType) /\
  forall k,
    exported !! k
    = match List.find (fun rr => String.eqb (Str.ofZ (statusCode rr)) k) (rev l) with
      | Some rr =>
          match GetRouteResponseContentType environment rr with
          | Return contentType => Some (responseOf environment rr contentType)
          | Throw _ => None
          end
      | None => acc !! k
      end.
Proof.
  revert acc. induction l as [|rr l IH]; intros acc E.
  - injection E as <-. split; [intros ? [] | reflexivity].
  - cbn [forEach] in E.
    destruct (GetRouteResponseContentType environment rr) as [ct|] eqn:Ect;
      [| discriminate].
    cbn [obind] in E. destruct (IH _ E) as [Hall Hlook]. split.
    + intros rr' [<- | Hin]; [now exists ct | now apply Hall].
    + intros k. rewrite Hlook. cbn [rev]. rewrite find_app.
      destruct (List.find _ (rev l)); [reflexivity |].
      cbn [List.find]. destruct (String.eqb_spec (Str.ofZ (statusCode rr)) k) as [<- | Hk].
      * rewrite Ect. now rewrite lookup_insert_eq.
      * now rewrite lookup_insert_ne.
Qed.

End ExportExtras.

(** X10.  The exported paths hold exactly what the routes write.  A path key
    and a method hold an operation exactly when some route of the
    environment has this exported path key and this method; routes that share
    a path key share a path item; and of the routes that share path key and
    method the last one in the environment is the one exported, with its
    documentation as description, its responses and its parameters. *)
Theorem exported_paths_are_exact `{Externals} (environment : Environment)
    (paths : gmap string (gmap string ExportedOperation)) :
  forEach (routes environment) (exportRoute environment) ∅ = Return paths ->
  (forall pathKey methodKey,
      operationAt paths pathKey methodKey = None <->
      forall route, In route (routes environment) ->
                    exportEndpoint (endpoint route) = pathKey ->
                    method route <> methodKey) /\
  (forall before route after,
      routes environment = before ++ route :: after ->
      (forall later, In later after ->
                     exportEndpoint (endpoint later) = exportEndpoint (endpoint route) ->
                     method later <> method route) ->
      exists exported,
        exportResponses environment route = Return exported /\
        operationAt paths (exportEndpoint (endpoint route)) (method route)
        = Some (operationOf route exported)).
Proof.
  intros E. pose proof (exported_paths_operationAt _ _ _ _ E) as Hat. split.
  - intros pathKey methodKey. rewrite Hat.
    destruct (List.find _ (rev (routes environment))) as [last|] eqn:F.
    + apply List.find_some in F as [Hin Hw]. apply in_rev in Hin.
      destruct (exported_paths_responses _ _ _ _ E last Hin) as [exported Er].
      rewrite Er. split; [discriminate |]. intros Hno. exfalso.
      unfold writesAt in Hw. apply andb_prop in Hw as [Hk Hm].
      apply String.eqb_eq in Hk, Hm. exact (Hno last Hin Hk Hm).
    + split; [| reflexivity]. intros _ route Hin Hk Hm.
      pose proof (List.find_none _ _ F route (proj1 (in_rev _ _) Hin)) as N.
      unfold writesAt in N. rewrite <- Hk, <- Hm, !String.eqb_refl in N. discriminate.
  - intros before route after Hsplit Hlast.
    assert (Hin : In route (routes environment))
      by (rewrite Hsplit; apply in_elt).
    destruct (exported_paths_responses _ _ _ _ E route Hin) as [exported Er].
    exists exported. split; [exact Er |]. rewrite Hat, Hsplit.
    rewrite (find_last _ before after route).
    + now rewrite Er.
    + unfold writesAt. now rewrite !String.eqb_refl.
    + intros later Hlater. unfold writesAt.
      destruct (String.eqb_spec (exportEndpoint (endpoint later))
                  (exportEndpoint (endpoint route))) as [Hk | Hk]; [| reflexivity].
      cbn [andb]. apply String.eqb_neq. exact (Hlast later Hlater Hk).
Qed.

Lemma exported_paths_are_exact_witness :
  let first :=
    {| method := "get"; endpoint := "pets/:id"; documentation := "old"; responses := [] |} in
  let second :=
    {| method := "put"; endpoint := "pets/:id"; documentation := "update"; responses := [] |} in
  let third :=
    {| method := "get"; endpoint := "pets/:id"; documentation := "new"; responses := [] |} in
  exists paths,
    forEach [first; second; third]
      (@exportRoute Demo.externals (Demo.environment [first; second; third])) ∅
    = Return paths /\
    operationAt paths "/pets/{id}" "get" = Some (operationOf third ∅) /\
    operationAt paths "/pets/{id}" "put" = Some (operationOf second ∅) /\
    operationAt paths "/pets/{id}" "post" = None.
Proof.
  cbv zeta.
  set (first := {| method := "get"; endpoint := "pets/:id"; documentation := "old";
                   responses := [] |}).
  set (second := {| method := "put"; endpoint := "pets/:id"; documentation := "update";
                    responses := [] |}).
  set (third := {| method := "get"; endpoint := "pets/:id"; documentation := "new";
                   responses := [] |}).
  eexists. split; [reflexivity |].
  destruct (@exported_paths_are_exact Demo.externals
              (Demo.environment [first; second; third]) _ eq_refl) as [Hnone Hlast].
  split; [| split].
  - destruct (Hlast [first; second] third [] eq_refl) as (exported & Er & Hat);
      [intros later [] |].
    injection Er as <-. exact Hat.
  - destruct (Hlast [first] second [third] eq_refl) as (exported & Er & Hat).
    + intros later [<- | []] _. discriminate.
    + injection Er as <-. exact Hat.
  - apply Hnone. intros route Hin _.
    destruct Hin as [<- | [<- | [<- | []]]]; discriminate.
Defined.

(** X11.  The exported responses are keyed by status code.  When the
    responses of a route are exported, a key holds a response exactly when
    it is the decimal numeral of the status code of some response of the
    route; of the responses that share a status code the last one is the
    one exported, with its label as description, its headers object, and as
    content one empty entry under its content type, or no entry when the
    content-type helper returns the empty string. *)
Theorem exported_responses_by_status `{Externals} (environment : Environment)
    (route : Route) (exported : gmap string ExportedResponse) :
  exportResponses environment route = Return exported ->
  (forall k,
      exported !! k = None <->
      forall routeResponse, In routeResponse (responses route) ->
                            Str.ofZ (statusCode routeResponse) <> k) /\
  (forall before routeResponse after,
      responses route = before ++ routeResponse :: after ->
      (forall later, In later after -> statusCode later <> statusCode routeResponse) ->
      exists contentType,
        GetRouteResponseContentType environment routeResponse = Return contentType /\
        exported !! Str.ofZ (statusCode routeResponse)
        = Some (responseOf environment routeResponse contentType)).
Proof.
  unfold exportResponses. intros E.
  destruct (exportResponses_lookup _ _ _ _ E) as [Hall Hlook]. split.
  - intros k. rewrite Hlook.
    destruct (List.find _ (rev (responses route))) as [last|] eqn:F.
    + apply List.find_some in F as [Hin Hk]. apply in_rev in Hin.
      destruct (Hall last Hin) as [ct Ect]. rewrite Ect.
      split; [discriminate |]. intros Hno. exfalso.
      apply String.eqb_eq in Hk. exact (Hno last Hin Hk).
    + split; [| intros _; apply lookup_empty]. intros _ rr Hin Hk.
      pose proof (List.find_none _ _ F rr (proj1 (in_rev _ _) Hin)) as N.
      simpl in N. rewrite Hk, String.eqb_refl in N. discriminate.
  - intros before rr after Hsplit Hlast.
    assert (Hin : In rr (responses route)) by (rewrite Hsplit; apply in_elt).
    destruct (Hall rr Hin) as [ct Ect]. exists ct. split; [exact Ect |].
    rewrite Hlook, Hsplit.
    rewrite (find_last _ before after rr).
    + now rewrite Ect.
    + apply String.eqb_refl.
    + intros later Hlater. apply String.eqb_neq. intros Heq.
      apply ofZ_inj in Heq. exact (Hlast later Hlater Heq).
Qed.

Lemma exported_responses_by_status_witness :
  let ok :=
    {| statusCode := 200; label := "first"; body := ""; rr_headers := [] |} in
  let missing :=
    {| statusCode := 404; label := "not found"; body := "";
       rr_headers := [ {| key := "Content-Type"; value := "text/plain" |} ] |} in
  let again :=
    {| statusCode := 200; label := "second"; body := ""; rr_headers := [] |} in
  exists exported,
    @exportResponses Demo.externals (Demo.environment [])
      (Demo.route "pets" [ok; missing; again]) = Return exported /\
    exported !! "200" = Some (responseOf (Demo.environment []) again "") /\
    exported !! "404" = Some (responseOf (Demo.environment []) missing "text/plain") /\
    exported !! "500" = None.
Proof.
  cbv zeta.
  set (ok := {| statusCode := 200; label := "first"; body := ""; rr_headers := [] |}).
  set (missing := {| statusCode := 404; label := "not found"; body := "";
                     rr_headers := [ {| key := "Content-Type"; value := "text/plain" |} ] |}).
  set (again := {| statusCode := 200; label := "second"; body := ""; rr_headers := [] |}).
  eexists. split; [reflexivity |].
  destruct (@exported_responses_by_status Demo.externals (Demo.environment [])
              (Demo.route "pets" [ok; missing; again]) _ eq_refl) as [Hnone Hlast].
  split; [| split].
  - destruct (Hlast [ok; missing] again [] eq_refl) as (ct & Ect & Hk);
      [intros later [] |].
    injection Ect as <-. exact Hk.
  - destruct (Hlast [ok] missing [again] eq_refl) as (ct & Ect & Hk).
    + intros later [<- | []]. discriminate.
    + injection Ect as <-. exact Hk.
  - apply Hnone. intros rr Hin.
    destruct Hin as [<- | [<- | [<- | []]]]; discriminate.
Defined.

(** X12.  A failed validation does not fail the export.  When the paths of
    an environment are built, [export] returns the serialized document and
    adds no toast, whatever the validator does: when the validator returns,
    the log gains the starting line only; when it throws, the log gains one
    error line more, with the message of the exception. *)
Theorem validation_failure_is_not_fatal `{Externals} (environment : Environment)
    (paths : gmap string (gmap string ExportedOperation)) (w : World) :
  forEach (routes environment) (exportRoute environment) ∅ = Return paths ->
  let document := exportedDocument environment paths in
  let started :=
    logs w ++ [(log_info, "Starting environment " +:+ uuid environment
                            +:+ " export to OpenAPI file")] in
  (forall e,
      validate document = Throw e ->
      export environment w
      = (Return (Some (JSON_stringify document)),
         {| toasts := toasts w;
            logs := started ++
                    [(log_error,
                      "Error while validating OpenAPI export object: "
                        +:+ message e)] |})) /\
  (validate document = Return tt ->
   export environment w
   = (Return (Some (JSON_stringify document)),
      {| toasts := toasts w; logs := started |})).
Proof.
  intros E document started.
  destruct (export_Return environment paths w E) as (validation & Ex & Hv).
  fold document in Ex, Hv. fold started in Ex. split.
  - intros e Ev. rewrite Ev in Hv. now rewrite Ex, Hv.
  - intros Ev. rewrite Ev in Hv. rewrite Ex, Hv. now rewrite app_nil_r.
Qed.

Lemma validation_failure_is_not_fatal_witness :
  @export Samples.strict (Demo.environment [Demo.route "pets/:id" []]) Demo.world
  = (Return (Some "3.0.0 Pets"),
     {| toasts := [];
        logs :=
          [(log_info, "Starting environment e1 export to OpenAPI file");
           (log_error,
            "Error while validating OpenAPI export object: Swagger schema validation failed")] |}).
Proof.
  refine (proj1 (@validation_failure_is_not_fatal Samples.strict
                   (Demo.environment [Demo.route "pets/:id" []]) _ Demo.world eq_refl)
            {| error_name := "SyntaxError";
               message := "Swagger schema validation failed" |} eq_refl).
Defined.



(** ** Import followed by export *)

Section Composition.

Context `{SchemasBuilderService} `{Externals}.

Lemma swagger_port_of_host (parsedAPI : ParsedAPI) (environment : Environment)
    (hostname : string) (n : Z) :
  convertFromSwagger parsedAPI = Return environment ->
  host parsedAPI = Some (hostname +:+ ":" +:+ Str.ofZ n) ->
  Str.all noColon hostname = true ->
  (0 < n <= MAX_SAFE_INTEGER)%Z ->
  port environment = n.
Proof.
  unfold convertFromSwagger.
  destruct (createRoutes parsedAPI SWAGGER) as [rs|]; cbn [obind]; [| discriminate].
  intros [= <-] -> Hh Hn. cbn [port].
  change (":" +:+ Str.ofZ n) with (String ":" (Str.ofZ n)).
  assert (Hsplit : Str.split ":" (hostname +:+ String ":" (Str.ofZ n))
                   = [hostname; Str.ofZ n])
    by (rewrite split_at_colon by exact Hh;
        now rewrite (split_no_colon _ (ofZ_noColon n (proj1 Hn)))).
  destruct (hostname +:+ String ":" (Str.ofZ n)) eqn:E;
    [destruct hostname; discriminate |].
  rewrite Hsplit. cbn [nth_error].
  rewrite (parseInt_safe n (isSafeInteger_bounds n ltac:(lia))).
  destruct (Z.eqb_spec n 0%Z); [lia | reflexivity].
Qed.

End Composition.

(** X14.  A Swagger import exports its address again.  When a Swagger
    document with host [name:port] (the port a positive safe integer, at
    most 2^53 - 1) and base path [/prefix] is converted and the converted
    environment is exported, the export returns the serialized document
    whose single server URL is [scheme://localhost:port/prefix], with the
    scheme of the factory's https flag, and whose title is the name given
    by the import. *)
Theorem swagger_address_survives_export `{SchemasBuilderService} `{Externals}
    (parsedAPI : ParsedAPI) (environment : Environment)
    (hostname prefix : string) (n : Z)
    (paths : gmap string (gmap string ExportedOperation)) (w : World) :
  convertFromSwagger parsedAPI = Return environment ->
  host parsedAPI = Some (hostname +:+ ":" +:+ Str.ofZ n) ->
  Str.all noColon hostname = true ->
  (0 < n <= MAX_SAFE_INTEGER)%Z ->
  basePath parsedAPI = Some ("/" +:+ prefix) ->
  forEach (routes environment) (exportRoute environment) ∅ = Return paths ->
  exists document w',
    export environment w = (Return (Some (JSON_stringify document)), w') /\
    doc_servers document
    = [ (if https buildEnvironment then "https" else "http")
          +:+ "://localhost:" +:+ Str.ofZ n +:+ "/" +:+ prefix ] /\
    doc_title document = or_else (info_title parsedAPI) "Swagger import" /\
    doc_paths document = paths.
Proof.
  intros Ec Hhost Hh Hn Hbase Ep.
  pose proof (swagger_port_of_host _ _ _ _ Ec Hhost Hh Hn) as Hport.
  destruct (export_Return environment paths w Ep) as (validation & Ex & _).
  exists (exportedDocument environment paths). eexists. split; [exact Ex |].
  unfold convertFromSwagger in Ec.
  destruct (createRoutes parsedAPI SWAGGER) as [rs|]; cbn [obind] in Ec; [| discriminate].
  injection Ec as <-. cbn [port] in Hport.
  unfold exportedDocument. cbn [doc_servers doc_title doc_paths https port
                                 endpointPrefix name].
  rewrite Hport, Hbase. repeat split.
Qed.

Lemma swagger_address_survives_export_witness :
  let parsedAPI :=
    {| swagger := Some "2.0"; openapi := None;
       host := Some "api.example.com:8443"; basePath := Some "/v2";
       info_title := Some "Pets"; servers := None; paths := Demo.pets |} in
  exists environment document w',
    @convertFromSwagger Demo.builder Demo.externals parsedAPI = Return environment /\
    @export Demo.externals environment Demo.world
    = (Return (Some (@JSON_stringify Demo.externals document)), w') /\
    doc_servers document = ["http://localhost:8443/v2"].
Proof.
  cbv zeta. eexists.
  edestruct (@swagger_address_survives_export Demo.builder Demo.externals
              {| swagger := Some "2.0"; openapi := None;
                 host := Some "api.example.com:8443"; basePath := Some "/v2";
                 info_title := Some "Pets"; servers := None; paths := Demo.pets |})
    with (hostname := "api.example.com") (prefix := "v2") (n := 8443%Z)
         (w := Demo.world)
    as (document & w' & Ex & Hs & _).
  - reflexivity.
  - reflexivity.
  - reflexivity.
  - split; [reflexivity | discriminate].
  - reflexivity.
  - reflexivity.
  - exists document, w'. split; [reflexivity | split; [exact Ex | exact Hs]].
Defined.

(** X15.  The lost prefix shows in the export.  When an OpenAPI 3 document
    without a first server is converted and the converted environment is
    exported, the server URL of the exported document ends in the word
    undefined, behind the port of the factory. *)
Theorem lost_prefix_is_exported_as_undefined `{SchemasBuilderService} `{Externals}
    (parsedAPI : ParsedAPI) (environment : Environment)
    (paths : gmap string (gmap string ExportedOperation)) (w : World) :
  convertFromOpenAPIV3 parsedAPI = Return environment ->
  servers parsedAPI = None \/ servers parsedAPI = Some [] ->
  forEach (routes environment) (exportRoute environment) ∅ = Return paths ->
  exists document w',
    export environment w = (Return (Some (JSON_stringify document)), w') /\
    doc_servers document
    = [ (if https buildEnvironment then "https" else "http")
          +:+ "://localhost:" +:+ Str.ofZ (port buildEnvironment)
          +:+ "/undefined" ].
Proof.
  intros Ec Hs Ep.
  destruct (export_Return environment paths w Ep) as (validation & Ex & _).
  exists (exportedDocument environment paths). eexists. split; [exact Ex |].
  unfold convertFromOpenAPIV3 in Ec.
  destruct Hs as [Hs | Hs]; rewrite Hs in Ec; cbn [obind] in Ec;
    (destruct (createRoutes parsedAPI OPENAPI_V3) as [rs|]; cbn [obind] in Ec;
     [| discriminate]);
    injection Ec as <-; reflexivity.
Qed.

Lemma lost_prefix_is_exported_as_undefined_witness :
  exists environment document w',
    @convertFromOpenAPIV3 Demo.builder Demo.externals
      (Demo.document None (Some "3.0.1") None None Demo.pets) = Return environment /\
    @export Demo.externals environment Demo.world
    = (Return (Some (@JSON_stringify Demo.externals document)), w') /\
    doc_servers document = ["http://localhost:3000/undefined"].
Proof.
  eexists.
  destruct (@lost_prefix_is_exported_as_undefined Demo.builder Demo.externals
              (Demo.document None (Some "3.0.1") None None Demo.pets)
              _ _ Demo.world eq_refl (or_introl eq_refl) eq_refl)
    as (document & w' & Ex & Hs).
  exists document, w'. split; [reflexivity | split; [exact Ex | exact Hs]].
Defined.

(** X16.  The prefix of an OpenAPI 3 import comes from the first server
    only.  When the variables of the first server declare every name inside
    a placeholder of its URL, the URL is not empty and the path of the URL
    with the defaults in place is a string, the prefix of the converted
    environment is that path without its first slash, whatever the further
    servers are; when that path is null, the conversion throws a TypeError;
    when the URL is empty, the prefix is the empty string. *)
Theorem prefix_comes_from_first_server `{SchemasBuilderService} `{Externals}
    (parsedAPI : ParsedAPI) (url : string)
    (variables : gmap string ServerVariableObject)
    (others : list ServerObject) (newRoutes : list Route) :
  servers parsedAPI
  = Some ({| server_url := url; server_variables := Some variables |} :: others) ->
  (forall name, In name (placeholders url) -> is_Some (variables !! name)) ->
  createRoutes parsedAPI OPENAPI_V3 = Return newRoutes ->
  (url = "" ->
   exists environment,
     convertFromOpenAPIV3 parsedAPI = Return environment /\
     endpointPrefix environment = Some "") /\
  (url <> "" ->
   forall path, urlParse_path (substituteDefaults variables url) = Some path ->
   exists environment,
     convertFromOpenAPIV3 parsedAPI = Return environment /\
     endpointPrefix environment = Some (RemoveLeadingSlash path)) /\
  (url <> "" ->
   urlParse_path (substituteDefaults variables url) = None ->
   exists e,
     convertFromOpenAPIV3 parsedAPI = Throw e /\ error_name e = "TypeError").
Proof.
  intros Hs Hdecl Er. unfold convertFromOpenAPIV3. rewrite Hs. cbn [server_url server_variables].
  assert (Hrep : parametersReplace url SERVER_VARIABLES (Some variables)
                 = Return (substituteDefaults variables url)).
  { unfold parametersReplace, js_replace_fn, substituteDefaults, js_replace.
    now apply replace_segments_defaults. }
  split; [| split].
  - intros ->. cbn [obind]. rewrite Er. cbn [obind]. eexists. split; reflexivity.
  - intros Hurl path Hp. destruct url as [|c url]; [now elim Hurl |].
    rewrite Hrep. cbn [obind]. rewrite Hp. cbn [obind]. rewrite Er. cbn [obind].
    eexists. split; reflexivity.
  - intros Hurl Hp. destruct url as [|c url]; [now elim Hurl |].
    rewrite Hrep. cbn [obind]. rewrite Hp. cbn [obind].
    eexists. split; reflexivity.
Qed.

Lemma prefix_comes_from_first_server_witness :
  exists environment,
    @convertFromOpenAPIV3 Demo.builder Demo.externals
      (Demo.document None (Some "3.0.1") None
         (Some [Samples.templated; Samples.undeclared]) Demo.pets)
    = Return environment /\
    endpointPrefix environment = Some "api/v2".
Proof.
  refine (proj1 (proj2 (@prefix_comes_from_first_server Demo.builder Demo.externals
                          (Demo.document None (Some "3.0.1") None
                             (Some [Samples.templated; Samples.undeclared]) Demo.pets)
                          "http://localhost:{port}/api/{version}" Samples.variables
                          [Samples.undeclared] _ eq_refl _ eq_refl))
            _ "/api/v2" eq_refl).
  - intros name Hin. simpl in Hin.
    destruct Hin as [<- | [<- | []]]; eexists; reflexivity.
  - discriminate.
Defined.
